(** * DLive: the persistent store and the task scheduler

    A shallow embedding of [StorageService], of the parts of
    [DashboardView] and [PetsView] that load, filter and create tasks, of
    the record types [Pet] and [Task], and of [GeminiService], together
    with what they rest on in the host: ECMAScript dates (ECMA-262, 21.4),
    promises, IndexedDB object stores and transactions, localStorage.

    Storage calls take the faults they meet as an argument and return the
    outcome of their promise with the state afterwards; the clock is an
    argument wherever the code reads it. *)

From Stdlib Require Import ZArith Lia String Ascii List.
From Stdlib Require Import DecimalString DecimalFacts DecimalPos DecimalN.
From stdpp Require Import base option list gmap strings sorting.

Local Open Scope string_scope.
Local Open Scope Z_scope.

(** ** JavaScript values *)

Module JS.

(** The numbers this program computes with are integer-valued doubles and
    the non-finite values.  [NaN] stands for every non-finite number: the
    date operations used here treat NaN and the infinities alike.  Integer
    arithmetic on [Z] is exact where the doubles are (below 2^53); beyond
    that every date built from the result is out of range and invalid. *)
Inductive number : Type :=
  | Num (z : Z)
  | NaN.

Definition add (a b : number) : number :=
  match a, b with
  | Num x, Num y => Num (x + y)
  | _, _ => NaN
  end.

(** Outcome of a promise as seen by the code that awaits it. *)
Inductive outcome (E A : Type) : Type :=
  | Resolved (a : A)
  | Rejected (e : E)
  | Pending.

Arguments Resolved {E A} a.
Arguments Rejected {E A} e.
Arguments Pending {E A}.

(** Decimal rendering of a non-negative integer, [Number.prototype.toString]
    on a natural number. *)
Definition decimal (n : N) : string :=
  NilEmpty.string_of_uint (N.to_uint n).

(** [Number.prototype.toString] on an integer. *)
Definition toString (z : Z) : string :=
  if z <? 0 then "-" +:+ decimal (Z.to_N (- z)) else decimal (Z.to_N z).

Fixpoint zeros (k : nat) : string :=
  match k with
  | O => ""
  | S k' => String "0" (zeros k')
  end.

(** ToZeroPaddedDecimalString of ECMA-262: the decimal string of [n],
    padded on the left with zeros to [minLength]. *)
Definition ToZeroPaddedDecimalString (n : N) (minLength : nat) : string :=
  let s := decimal n in
  zeros (minLength - String.length s) +:+ s.

(** [parseInt(string)] with no radix (ECMA-262 19.2.5): leading white
    space is skipped, a sign is read, a prefix 0x or 0X selects radix 16,
    and the longest run of digits is the value; NaN when that run is empty.
    White space is the ASCII part of StrWhiteSpaceChar. *)
Definition is_white_space (c : ascii) : bool :=
  let n := N_of_ascii c in
  ((9 <=? n)%N && (n <=? 13)%N) || (n =? 32)%N.

Fixpoint trim_start (s : string) : string :=
  match s with
  | String c rest => if is_white_space c then trim_start rest else s
  | EmptyString => s
  end.

Definition digit_value (c : ascii) : option Z :=
  let n := Z.of_N (N_of_ascii c) in
  if (48 <=? n) && (n <=? 57) then Some (n - 48)
  else if (97 <=? n) && (n <=? 122) then Some (n - 87)
  else if (65 <=? n) && (n <=? 90) then Some (n - 55)
  else None.

(** The value of the longest prefix of [s] made of digits of radix [R],
    continuing from [acc]; [None] while no digit has been read. *)
Fixpoint read_digits (R : Z) (s : string) (acc : option Z) : option Z :=
  match s with
  | EmptyString => acc
  | String c rest =>
      match digit_value c with
      | Some v =>
          if v <? R then read_digits R rest (Some (default 0 acc * R + v))
          else acc
      | None => acc
      end
  end.

Definition parseInt (string : string) : number :=
  let s := trim_start string in
  let '(sign, s) :=
    match s with
    | String "-" rest => (-1, rest)
    | String "+" rest => (1, rest)
    | _ => (1, s)
    end in
  let '(R, s) :=
    match s with
    | String "0" (String "x" rest) => (16, rest)
    | String "0" (String "X" rest) => (16, rest)
    | _ => (10, s)
    end in
  match read_digits R s None with
  | None => NaN
  | Some mathInt => Num (sign * mathInt)
  end.

(** [Promise.all] on two promises. *)
Definition all2 {E A B : Type} (a : outcome E A) (b : outcome E B)
  : outcome E (A * B) :=
  match a, b with
  | Resolved x, Resolved y => Resolved (x, y)
  | Rejected e, _ => Rejected e
  | _, Rejected e => Rejected e
  | _, _ => Pending
  end.

(** [Array.prototype.sort] with a comparison function (23.1.3.30): a NaN
    from the function counts as zero, and the sort is stable.  The
    comparison functions of this program are consistent on valid dates,
    where the stable sorted order is unique; insertion from the right
    computes it. *)
Section Sort.
Context {A : Type} (comparefn : A -> A -> number).

Definition SortCompare (x y : A) : Z :=
  match comparefn x y with
  | NaN => 0
  | Num v => v
  end.

Fixpoint insert (x : A) (l : list A) : list A :=
  match l with
  | [] => [x]
  | y :: l' => if 0 <? SortCompare x y then y :: insert x l' else x :: l
  end.

Definition sort (l : list A) : list A := foldr insert [] l.

End Sort.

End JS.

(** ** ECMAScript dates (ECMA-262, 21.4.1) *)

Module JSDate.
Import JS.

Definition msPerDay : Z := 86400000.
Definition HoursPerDay : Z := 24.
Definition MinutesPerHour : Z := 60.
Definition SecondsPerMinute : Z := 60.
Definition msPerSecond : Z := 1000.
Definition msPerMinute : Z := 60000.
Definition msPerHour : Z := 3600000.

(** [Z.div] and [Z.modulo] round towards minus infinity for a positive
    divisor, as [floor(t / msPerDay)] and the ECMAScript [modulo] do. *)
Definition Day (t : Z) : Z := t / msPerDay.
Definition TimeWithinDay (t : Z) : Z := t mod msPerDay.

Definition DaysInYear (y : Z) : Z :=
  if negb (y mod 4 =? 0) then 365
  else if negb (y mod 100 =? 0) then 366
  else if negb (y mod 400 =? 0) then 365
  else 366.

Definition DayFromYear (y : Z) : Z :=
  365 * (y - 1970) + (y - 1969) / 4 - (y - 1901) / 100 + (y - 1601) / 400.

Definition TimeFromYear (y : Z) : Z := msPerDay * DayFromYear y.

(** The largest year [y] with [DayFromYear y <= d]: an estimate from the
    mean length of a Gregorian year, corrected by at most one year. *)
Definition YearFromDay (d : Z) : Z :=
  let y := 1970 + (400 * d) / 146097 in
  if d <? DayFromYear y then y - 1
  else if DayFromYear (y + 1) <=? d then y + 1
  else y.

Definition YearFromTime (t : Z) : Z := YearFromDay (Day t).

Definition InLeapYear (t : Z) : Z :=
  if DaysInYear (YearFromTime t) =? 366 then 1 else 0.

Definition DayWithinYear (t : Z) : Z := Day t - DayFromYear (YearFromTime t).

(** Number of days of the year before month [m] (0 = January). *)
Definition DaysBeforeMonth (m leap : Z) : Z :=
  match m with
  | 0 => 0
  | 1 => 31
  | 2 => 59 + leap
  | 3 => 90 + leap
  | 4 => 120 + leap
  | 5 => 151 + leap
  | 6 => 181 + leap
  | 7 => 212 + leap
  | 8 => 243 + leap
  | 9 => 273 + leap
  | 10 => 304 + leap
  | _ => 334 + leap
  end.

Definition MonthFromTime (t : Z) : Z :=
  let d := DayWithinYear t in
  let leap := InLeapYear t in
  if d <? 31 then 0
  else if d <? 59 + leap then 1
  else if d <? 90 + leap then 2
  else if d <? 120 + leap then 3
  else if d <? 151 + leap then 4
  else if d <? 181 + leap then 5
  else if d <? 212 + leap then 6
  else if d <? 243 + leap then 7
  else if d <? 273 + leap then 8
  else if d <? 304 + leap then 9
  else if d <? 334 + leap then 10
  else 11.

Definition DateFromTime (t : Z) : Z :=
  DayWithinYear t - DaysBeforeMonth (MonthFromTime t) (InLeapYear t) + 1.

Definition WeekDay (t : Z) : Z := (Day t + 4) mod 7.

Definition HourFromTime (t : Z) : Z := (t / msPerHour) mod HoursPerDay.
Definition MinFromTime (t : Z) : Z := (t / msPerMinute) mod MinutesPerHour.
Definition SecFromTime (t : Z) : Z := (t / msPerSecond) mod SecondsPerMinute.
Definition msFromTime (t : Z) : Z := t mod msPerSecond.

Definition MakeTime (hour min sec ms : Z) : Z :=
  hour * msPerHour + min * msPerMinute + sec * msPerSecond + ms.

(** MakeDay: the day number of the first of month [month] of [year], moved
    by [date - 1] days; months outside 0..11 carry into the year. *)
Definition MakeDay (year month : Z) (date : number) : number :=
  match date with
  | NaN => NaN
  | Num dt =>
      let ym := year + month / 12 in
      let mn := month mod 12 in
      let leap := if DaysInYear ym =? 366 then 1 else 0 in
      Num (DayFromYear ym + DaysBeforeMonth mn leap + dt - 1)
  end.

Definition MakeDate (day : number) (time : Z) : number :=
  match day with
  | NaN => NaN
  | Num d => Num (d * msPerDay + time)
  end.

Definition TimeClip (time : number) : number :=
  match time with
  | NaN => NaN
  | Num t => if Z.abs t <=? 8640000000000000 then Num t else NaN
  end.

(** The host: the time zone of the machine and the engine's date parser.
    [LocalTZA t true] is the offset of local time from UTC, in milliseconds,
    at the UTC instant [t]; [LocalTZA t false] is the offset at the local
    time [t].  [parse] is [Date.parse]: it accepts the ISO format and,
    beyond it, formats of the engine's choosing. *)
Class Platform : Type := {
  LocalTZA : Z -> bool -> Z;
  parse : string -> number
}.

Section Methods.
Context `{host : Platform}.

Definition LocalTime (t : Z) : Z := t + LocalTZA t true.
Definition UTC (t : Z) : Z := t - LocalTZA t false.

(** A Date object is its time value: milliseconds since the epoch, or NaN
    for an invalid date. *)

(** [new Date(string)] *)
Definition ofString (s : string) : number := parse s.

(** [new Date(date)] copies the time value. *)
Definition ofDate (d : number) : number := d.

(** [Date.prototype.getTime] *)
Definition getTime (d : number) : number := d.

(** [Date.prototype.getDate] (21.4.4.2) *)
Definition getDate (d : number) : number :=
  match d with
  | NaN => NaN
  | Num t => Num (DateFromTime (LocalTime t))
  end.

(** [Date.prototype.setDate] (21.4.4.20); the result is the new time
    value of the object. *)
Definition setDate (d : number) (date : number) : number :=
  match d with
  | NaN => NaN
  | Num t0 =>
      let t := LocalTime t0 in
      let newDate :=
        MakeDate (MakeDay (YearFromTime t) (MonthFromTime t) date)
                 (TimeWithinDay t) in
      TimeClip (match newDate with NaN => NaN | Num v => Num (UTC v) end)
  end.

Definition DayName (wd : Z) : string :=
  match wd with
  | 0 => "Sun" | 1 => "Mon" | 2 => "Tue" | 3 => "Wed"
  | 4 => "Thu" | 5 => "Fri" | _ => "Sat"
  end.

Definition MonthName (m : Z) : string :=
  match m with
  | 0 => "Jan" | 1 => "Feb" | 2 => "Mar" | 3 => "Apr"
  | 4 => "May" | 5 => "Jun" | 6 => "Jul" | 7 => "Aug"
  | 8 => "Sep" | 9 => "Oct" | 10 => "Nov" | _ => "Dec"
  end.

(** DateString (21.4.4.41.2) on a local time. *)
Definition DateString (tv : Z) : string :=
  let yv := YearFromTime tv in
  DayName (WeekDay tv) +:+ " " +:+ MonthName (MonthFromTime tv) +:+ " "
  +:+ ToZeroPaddedDecimalString (Z.to_N (DateFromTime tv)) 2 +:+ " "
  +:+ (if 0 <=? yv then "" else "-")
  +:+ ToZeroPaddedDecimalString (Z.to_N (Z.abs yv)) 4.

(** [Date.prototype.toDateString] (21.4.4.35) *)
Definition toDateString (d : number) : string :=
  match d with
  | NaN => "Invalid Date"
  | Num tv => DateString (LocalTime tv)
  end.

End Methods.

(** A field of a date string: [z], not negative, in at least [w]
    digits. *)
Definition pad (z : Z) (w : nat) : string :=
  ToZeroPaddedDecimalString (Z.to_N z) w.

(** The year of the Date Time String Format (21.4.1.32): four digits for
    the years 0 to 9999, a sign and six digits otherwise. *)
Definition YearString (y : Z) : string :=
  if (0 <=? y) && (y <=? 9999) then pad y 4
  else (if 0 <=? y then "+" else "-") +:+ pad (Z.abs y) 6.

(** [Date.prototype.toISOString] (21.4.4.36): UTC, and a RangeError
    ([None]) on an invalid date. *)
Definition toISOString (d : number) : option string :=
  match d with
  | NaN => None
  | Num tv =>
      Some (YearString (YearFromTime tv) +:+ "-"
            +:+ pad (MonthFromTime tv + 1) 2 +:+ "-"
            +:+ pad (DateFromTime tv) 2 +:+ "T"
            +:+ pad (HourFromTime tv) 2 +:+ ":"
            +:+ pad (MinFromTime tv) 2 +:+ ":"
            +:+ pad (SecFromTime tv) 2 +:+ "."
            +:+ pad (msFromTime tv) 3 +:+ "Z")
  end.

(** Number of days of month [m] (0 = January). *)
Definition DaysInMonth (m leap : Z) : Z :=
  match m with
  | 1 => 28 + leap
  | 3 | 5 | 8 | 10 => 30
  | _ => 31
  end.

(** The number written in the [len] digits of [s] from [start] on. *)
Definition field (s : string) (start len : nat) : option Z :=
  let digits := substring start len s in
  if bool_decide (String.length digits = len) then
    Z.of_uint <$> NilEmpty.uint_of_string digits
  else None.

(** The character [c] at [start] in [s]. *)
Definition literal (s : string) (start : nat) (c : string) : option unit :=
  if bool_decide (substring start 1 s = c) then Some tt else None.

Definition guard (b : bool) : option unit := if b then Some tt else None.

(** The time value of the fields read, when they are in range: months 1
    to 12, days within the month, and 24:00:00.000 as the only time past
    23:59:59.999; the year -000000 is not a year. *)
Definition fromFields (sign y m d h mi sec ms : Z) : option Z :=
  let year := sign * y in
  let leap := if DaysInYear year =? 366 then 1 else 0 in
  _ ← guard ((1 <=? m) && (m <=? 12));
  _ ← guard ((1 <=? d) && (d <=? DaysInMonth (m - 1) leap));
  _ ← guard ((h <=? 23) && (mi <=? 59) && (sec <=? 59)
             || (h =? 24) && (mi =? 0) && (sec =? 0) && (ms =? 0));
  _ ← guard (negb ((sign =? -1) && (y =? 0)));
  match MakeDay year (m - 1) (Num d) with
  | Num day => Some (day * msPerDay + MakeTime h mi sec ms)
  | NaN => None
  end.

(** The fields of a string whose year has [ylen] digits and starts at
    [o]. *)
Definition parseFields (s : string) (o ylen : nat) (sign : Z) : option Z :=
  let o := (o + ylen)%nat in
  y ← field s (o - ylen) ylen;
  _ ← literal s o "-";
  m ← field s (o + 1) 2;
  _ ← literal s (o + 3) "-";
  d ← field s (o + 4) 2;
  _ ← literal s (o + 6) "T";
  h ← field s (o + 7) 2;
  _ ← literal s (o + 9) ":";
  mi ← field s (o + 10) 2;
  _ ← literal s (o + 12) ":";
  sec ← field s (o + 13) 2;
  _ ← literal s (o + 15) ".";
  ms ← field s (o + 16) 3;
  _ ← literal s (o + 19) "Z";
  _ ← guard (bool_decide (String.length s = (o + 20)%nat));
  fromFields sign y m d h mi sec ms.

(** A date parser for the Date Time String Format as [toISOString] writes
    it (21.4.1.32, 21.4.3.2): [YYYY-MM-DDTHH:mm:ss.sssZ], the year being
    four digits, or a sign and six digits.  Every other string is an
    invalid date for it. *)
Definition parseISO (s : string) : number :=
  let fields :=
    match s with
    | String "+" _ => parseFields s 1 6 1
    | String "-" _ => parseFields s 1 6 (-1)
    | _ => parseFields s 0 4 1
    end in
  match fields with
  | Some tv => TimeClip (Num tv)
  | None => NaN
  end.

(** Relational comparison and subtraction of two Dates through their time
    values; a comparison with NaN is false. *)
Definition le (a b : number) : bool :=
  match a, b with
  | Num x, Num y => x <=? y
  | _, _ => false
  end.

Definition sub (a b : number) : number :=
  match a, b with
  | Num x, Num y => Num (x - y)
  | _, _ => NaN
  end.

End JSDate.

(** ** Records *)

Inductive TaskType : Type := PILL | NAILS | EARS | OTHER.

Module Pet.
Record t : Type := mk {
  id : string;
  name : string;
  breed : string;
  weight : option JS.number;
  imageUrl : string
}.
End Pet.

Module Task.
Record t : Type := mk {
  id : string;
  petId : string;
  type : TaskType;
  title : string;
  frequencyDays : JS.number;
  lastDoneDate : option string;
  nextDueDate : string
}.

Definition set_lastDoneDate (v : option string) (task : t) : t :=
  mk (id task) (petId task) (type task) (title task) (frequencyDays task)
     v (nextDueDate task).

Definition set_nextDueDate (v : string) (task : t) : t :=
  mk (id task) (petId task) (type task) (title task) (frequencyDays task)
     (lastDoneDate task) v.
End Task.

#[global] Instance number_eq_dec : EqDecision JS.number.
Proof. solve_decision. Defined.
#[global] Instance TaskType_eq_dec : EqDecision TaskType.
Proof. solve_decision. Defined.
#[global] Instance Pet_eq_dec : EqDecision Pet.t.
Proof. solve_decision. Defined.
#[global] Instance Task_eq_dec : EqDecision Task.t.
Proof. solve_decision. Defined.

(** ** IndexedDB *)

Module IDB.
Import JS.

(** A DOMException, by name. *)
Definition DOMException : Type := string.

(** What can go wrong inside one transaction: nothing; one of its requests
    fails; or all requests succeed and the commit fails. *)
Inductive fault : Type :=
  | NoFault
  | RequestFault (e : DOMException)
  | CommitFault (e : DOMException).

(** The events a transaction dispatches to the handlers registered on
    its requests and on the transaction itself; [RequestSuccess] stands
    for the success events of all its requests.  The error event of a
    failed request bubbles to the transaction, which then aborts; a failed
    commit, or an exception thrown by a handler with no request left
    waiting, aborts the transaction with an abort event only. *)
Inductive event : Type :=
  | RequestSuccess
  | RequestError (e : DOMException)
  | TransactionError
  | TransactionAbort
  | TransactionComplete.

(** Why a promise of the storage service rejects: [reject(request.error)]
    or [reject(transaction.error)]. *)
Inductive reason : Type :=
  | request_error (e : DOMException)
  | transaction_error.

(** A transaction runs its requests against the stores: [body] is what
    they make of the stores when each succeeds, [None] when a success
    handler throws on the way.  The outcome is the events dispatched and
    the stores afterwards: the new ones when the transaction commits, the
    old ones when it aborts. *)
Definition transaction {D : Type} (f : fault) (before : D) (body : option D)
  : list event * D :=
  match f, body with
  | RequestFault e, _ =>
      ([RequestError e; TransactionError; TransactionAbort], before)
  | _, None => ([RequestSuccess; TransactionAbort], before)
  | CommitFault e, Some _ => ([RequestSuccess; TransactionAbort], before)
  | NoFault, Some after => ([RequestSuccess; TransactionComplete], after)
  end.

(** A promise settles at the first event whose handler calls [resolve] or
    [reject]; later calls have no effect; with no such event it stays
    pending. *)
Fixpoint settle {A : Type} (handler : event -> option (outcome reason A))
    (events : list event) : outcome reason A :=
  match events with
  | [] => Pending
  | ev :: rest =>
      match handler ev with
      | Some o => o
      | None => settle handler rest
      end
  end.

(** An object store with a key path: every record is stored under the key
    found in it. *)
Section ObjectStore.
Context {A : Type} (keyPath : A -> string).

Definition put (value : A) (store : gmap string A) : gmap string A :=
  <[keyPath value := value]> store.

Definition delete (key : string) (store : gmap string A) : gmap string A :=
  base.delete key store.

Definition get (key : string) (store : gmap string A) : option A :=
  store !! key.

Definition clear (store : gmap string A) : gmap string A := ∅.

End ObjectStore.

(** Keys are strings, ordered by their code units. *)
Definition key_le {A : Type} (a b : string * A) : Prop :=
  String.leb a.1 b.1 = true.

#[global] Instance key_le_dec {A : Type} (a b : string * A) :
  Decision (key_le a b).
Proof. unfold key_le. apply _. Defined.

(** The records of a store in key order, as [getAll] returns them and as a
    cursor visits them. *)
Definition entries {A : Type} (store : gmap string A) : list (string * A) :=
  merge_sort key_le (map_to_list store).

Definition getAll {A : Type} (store : gmap string A) : list A :=
  (entries store).*2.

End IDB.

(** ** The storage service *)

Module StorageService.
Import JS IDB.

Definition STORE_PETS : string := "pets".
Definition STORE_TASKS : string := "tasks".
Definition THEME_KEY : string := "dlive_theme".
Definition NOTIFICATIONS_KEY : string := "dlive_notifications".

(** The two object stores of the database, both with key path [id]. *)
Record stores : Type := Stores {
  pets : gmap string Pet.t;
  tasks : gmap string Task.t
}.

(** Everything that persists: the database and localStorage. *)
Record state : Type := State {
  db : stores;
  localStorage : gmap string string
}.

Definition set_db (d : stores) (st : state) : state :=
  State d (localStorage st).

(** The faults met by one call: the error of the open request, if it
    fails, and the fault of the transaction. *)
Record env : Type := Env {
  open_error : option DOMException;
  tx_fault : fault
}.

Definition no_faults : env := Env None NoFault.

(** [openDB]: the promise rejects with the error of the open request and
    resolves with the connection otherwise; the upgrade handler has
    created both stores by then. *)
Definition openDB (e : env) : outcome reason unit :=
  match open_error e with
  | Some err => Rejected (request_error err)
  | None => Resolved tt
  end.

(** Handlers [request.onsuccess = () => resolve(v)] and
    [request.onerror = () => reject(request.error)]. *)
Definition on_request {A : Type} (v : A) (ev : event)
  : option (outcome reason A) :=
  match ev with
  | RequestSuccess => Some (Resolved v)
  | RequestError e => Some (Rejected (request_error e))
  | _ => None
  end.

(** Handlers [transaction.oncomplete = () => resolve()] and
    [transaction.onerror = () => reject(transaction.error)]. *)
Definition on_transaction (ev : event) : option (outcome reason unit) :=
  match ev with
  | TransactionComplete => Some (Resolved tt)
  | TransactionError => Some (Rejected transaction_error)
  | _ => None
  end.

(** Handler [t.oncomplete = () => resolve()] alone. *)
Definition on_complete (ev : event) : option (outcome reason unit) :=
  match ev with
  | TransactionComplete => Some (Resolved tt)
  | _ => None
  end.

(** [getPets]: the open is awaited inside the try block, so its rejection
    reaches the catch clause; the promise of the request is returned
    without being awaited, so its rejection does not. *)
Definition getPets (e : env) (st : state) : outcome reason (list Pet.t) :=
  match openDB e with
  | Rejected _ => Resolved []
  | Pending => Pending
  | Resolved _ =>
      let '(events, _) := transaction (tx_fault e) (db st) (Some (db st)) in
      settle (on_request (getAll (pets (db st)))) events
  end.

Definition savePet (e : env) (pet : Pet.t) (st : state)
  : outcome reason unit * state :=
  match openDB e with
  | Rejected r => (Rejected r, st)
  | Pending => (Pending, st)
  | Resolved _ =>
      let after := Stores (put Pet.id pet (pets (db st))) (tasks (db st)) in
      let '(events, d) := transaction (tx_fault e) (db st) (Some after) in
      (settle (on_request tt) events, set_db d st)
  end.

(** The cursor loop of [deletePet]: the cursor visits [records] in turn;
    at each one the handler deletes the record under the cursor when its
    [petId] is [id], and continues; at the end the cursor is null. *)
Fixpoint cursor_loop (id : string) (records : list (string * Task.t))
    (store : gmap string Task.t) : gmap string Task.t :=
  match records with
  | [] => store
  | (key, task) :: rest =>
      let store' :=
        if decide (Task.petId task = id) then delete key store else store in
      cursor_loop id rest store'
  end.

Definition deletePet (e : env) (id : string) (st : state)
  : outcome reason unit * state :=
  match openDB e with
  | Rejected r => (Rejected r, st)
  | Pending => (Pending, st)
  | Resolved _ =>
      let petStore := delete id (pets (db st)) in
      let taskStore :=
        cursor_loop id (entries (tasks (db st))) (tasks (db st)) in
      let '(events, d) :=
        transaction (tx_fault e) (db st) (Some (Stores petStore taskStore)) in
      (settle on_transaction events, set_db d st)
  end.

Definition getTasks (e : env) (st : state) : outcome reason (list Task.t) :=
  match openDB e with
  | Rejected _ => Resolved []
  | Pending => Pending
  | Resolved _ =>
      let '(events, _) := transaction (tx_fault e) (db st) (Some (db st)) in
      settle (on_request (getAll (tasks (db st)))) events
  end.

Definition saveTask (e : env) (task : Task.t) (st : state)
  : outcome reason unit * state :=
  match openDB e with
  | Rejected r => (Rejected r, st)
  | Pending => (Pending, st)
  | Resolved _ =>
      let after := Stores (pets (db st)) (put Task.id task (tasks (db st))) in
      let '(events, d) := transaction (tx_fault e) (db st) (Some after) in
      (settle (on_request tt) events, set_db d st)
  end.

Definition deleteTask (e : env) (id : string) (st : state)
  : outcome reason unit * state :=
  match openDB e with
  | Rejected r => (Rejected r, st)
  | Pending => (Pending, st)
  | Resolved _ =>
      let after := Stores (pets (db st)) (delete id (tasks (db st))) in
      let '(events, d) := transaction (tx_fault e) (db st) (Some after) in
      (settle (on_request tt) events, set_db d st)
  end.

Section Clock.
Context `{host : JSDate.Platform}.

(** The success handler of the get request in [completeTask], with
    [clock] the time read by [new Date()]: the new task store, or [None]
    when [toISOString] throws a RangeError. *)
Definition complete_handler (clock : Z) (result : option Task.t)
    (store : gmap string Task.t) : option (gmap string Task.t) :=
  match result with
  | None => Some store
  | Some task =>
      let now := Num clock in
      last ← JSDate.toISOString now;
      let task1 := Task.set_lastDoneDate (Some last) task in
      let nextDue := JSDate.ofDate now in
      let nextDue :=
        JSDate.setDate nextDue
          (add (JSDate.getDate now) (Task.frequencyDays task1)) in
      next ← JSDate.toISOString nextDue;
      let task2 := Task.set_nextDueDate next task1 in
      Some (put Task.id task2 store)
  end.

Definition completeTask (e : env) (clock : Z) (taskId : string) (st : state)
  : outcome reason unit * state :=
  match openDB e with
  | Rejected r => (Rejected r, st)
  | Pending => (Pending, st)
  | Resolved _ =>
      let store := tasks (db st) in
      let body :=
        store' ← complete_handler clock (get taskId store) store;
        Some (Stores (pets (db st)) store') in
      let '(events, d) := transaction (tx_fault e) (db st) body in
      (settle on_transaction events, set_db d st)
  end.

End Clock.

(** [clearAllData]: the two clear requests are placed, the preferences are
    removed from localStorage at once, and the promise waits for the
    completion of the transaction and for nothing else. *)
Definition clearAllData (e : env) (st : state) : outcome reason unit * state :=
  match openDB e with
  | Rejected r => (Rejected r, st)
  | Pending => (Pending, st)
  | Resolved _ =>
      let after := Stores (clear (pets (db st))) (clear (tasks (db st))) in
      let '(events, d) := transaction (tx_fault e) (db st) (Some after) in
      let ls :=
        base.delete NOTIFICATIONS_KEY
          (base.delete THEME_KEY (localStorage st)) in
      (settle on_complete events, State d ls)
  end.

(** Preferences, in localStorage. *)

(** [getItem(THEME_KEY) || 'light']: the stored string unless it is absent
    or empty. *)
Definition getTheme (st : state) : string :=
  match localStorage st !! THEME_KEY with
  | Some s => if decide (s = "") then "light" else s
  | None => "light"
  end.

Definition saveTheme (theme : string) (st : state) : state :=
  State (db st) (<[THEME_KEY := theme]> (localStorage st)).

Definition getNotificationSettings (st : state) : bool :=
  bool_decide (localStorage st !! NOTIFICATIONS_KEY = Some "true").

Definition saveNotificationSettings (enabled : bool) (st : state) : state :=
  State (db st)
    (<[NOTIFICATIONS_KEY := if enabled then "true" else "false"]>
       (localStorage st)).

End StorageService.

(** ** The assistant service *)

Module GeminiService.
Import JS.

(** What [response.text] holds when [generateContent] resolves: a string,
    or undefined. *)
Definition response : Type := option string.

(** [askAssistant], with [apiKey] the key the module was built with and
    [generateContent] the outcome of the awaited call on each message. *)
Definition askAssistant {E : Type} (apiKey : string)
    (generateContent : string -> outcome E response) (message : string)
  : outcome E string :=
  if decide (apiKey = "") then
    Resolved "Пожалуйста, настройте API Key для работы помощника."
  else
    match generateContent message with
    | Resolved text =>
        match text with
        | Some s =>
            if decide (s = "")
            then Resolved "Извините, я не смог придумать ответ."
            else Resolved s
        | None => Resolved "Извините, я не смог придумать ответ."
        end
    | Rejected _ =>
        Resolved "Произошла ошибка при связи с сервером AI. Попробуйте позже."
    | Pending => Pending
    end.

End GeminiService.

(** ** The views *)

Module DashboardView.
Import JS.

Inductive filter : Type := all | today.

(** The state of the view. *)
Record view : Type := View {
  tasks : list Task.t;
  pets : list Pet.t;
  current : filter;
  loading : bool
}.

Definition initial : view := View [] [] today true.

Definition setFilter (f : filter) (v : view) : view :=
  View (tasks v) (pets v) f (loading v).

(** [getPetName]: the name of the first pet of that id among the pets
    loaded, and a stand-in when there is none or its name is empty. *)
Definition getPetName (v : view) (id : string) : string :=
  match List.find (fun p => bool_decide (Pet.id p = id)) (pets v) with
  | Some p => if decide (Pet.name p = "") then "Питомец" else Pet.name p
  | None => "Питомец"
  end.

Section Host.
Context `{host : JSDate.Platform}.

(** The comparison function of [loadData]:
    [new Date(a.nextDueDate).getTime() - new Date(b.nextDueDate).getTime()]. *)
Definition byNextDueDate (a b : Task.t) : number :=
  JSDate.sub (JSDate.getTime (JSDate.ofString (Task.nextDueDate a)))
             (JSDate.getTime (JSDate.ofString (Task.nextDueDate b))).

(** [loadData]: both reads run, each with its own faults; the state is set
    when both have resolved. *)
Definition loadData (eTasks ePets : StorageService.env)
    (st : StorageService.state) (v : view)
  : outcome IDB.reason unit * view :=
  match all2 (StorageService.getTasks eTasks st)
             (StorageService.getPets ePets st) with
  | Resolved (fetchedTasks, fetchedPets) =>
      (Resolved tt,
       View (sort byNextDueDate fetchedTasks) fetchedPets (current v) false)
  | Rejected r => (Rejected r, v)
  | Pending => (Pending, v)
  end.

(** The callback of [filteredTasks] on one task, with [clock] the time
    read by its [new Date()]. *)
Definition shown (f : filter) (clock : Z) (task : Task.t) : bool :=
  match f with
  | all => true
  | today =>
      let dueDate := JSDate.ofString (Task.nextDueDate task) in
      let today := Num clock in
      JSDate.le dueDate today
      || bool_decide (JSDate.toDateString dueDate = JSDate.toDateString today)
  end.

(** [Array.prototype.filter] calls the callback on the elements in index
    order; [clock i] is the time read in the call on the element of index
    [i]. *)
Fixpoint filter_from (f : filter) (clock : nat -> Z) (i : nat)
    (l : list Task.t) : list Task.t :=
  match l with
  | [] => []
  | task :: rest =>
      if shown f (clock i) task
      then task :: filter_from f clock (S i) rest
      else filter_from f clock (S i) rest
  end.

Definition filteredTasks (clock : nat -> Z) (v : view) : list Task.t :=
  filter_from (current v) clock 0 (tasks v).

(** [handleComplete]: the completion is awaited; the reload that follows
    is not, and sets the state when its reads have resolved. *)
Definition handleComplete (eComplete eTasks ePets : StorageService.env)
    (clock : Z) (taskId : string) (st : StorageService.state) (v : view)
  : outcome IDB.reason unit * StorageService.state * view :=
  match StorageService.completeTask eComplete clock taskId st with
  | (Resolved _, st') => (Resolved tt, st', snd (loadData eTasks ePets st' v))
  | (o, st') => (o, st', v)
  end.

(** [formatDate], with [clock] the time read by [new Date()] and
    [toLocaleDateString] the rendering of a date in the ru-RU locale, which
    is the engine's to choose. *)
Definition formatDate (toLocaleDateString : number -> string) (clock : Z)
    (isoString : string) : string :=
  let date := JSDate.ofString isoString in
  let today := Num clock in
  let tomorrow := JSDate.ofDate today in
  let tomorrow :=
    JSDate.setDate tomorrow (add (JSDate.getDate tomorrow) (Num 1)) in
  if bool_decide (JSDate.toDateString date = JSDate.toDateString today)
  then "Сегодня"
  else if bool_decide (JSDate.toDateString date = JSDate.toDateString tomorrow)
  then "Завтра"
  else toLocaleDateString date.

End Host.
End DashboardView.

Module PetsView.
Import JS.

(** The part of the state of the view that the task form reads and
    writes. *)
Record view : Type := View {
  pets : list Pet.t;
  tasks : list Task.t;
  loading : bool;
  showAddTask : option string;
  newTaskTitle : string;
  newTaskType : TaskType;
  newTaskFreq : number
}.

Definition loadData (ePets eTasks : StorageService.env)
    (st : StorageService.state) (v : view)
  : outcome IDB.reason unit * view :=
  match all2 (StorageService.getPets ePets st)
             (StorageService.getTasks eTasks st) with
  | Resolved (fetchedPets, fetchedTasks) =>
      (Resolved tt,
       View fetchedPets fetchedTasks false (showAddTask v) (newTaskTitle v)
            (newTaskType v) (newTaskFreq v))
  | Rejected r => (Rejected r, v)
  | Pending => (Pending, v)
  end.

(** The change handler of the frequency field, a number input with
    [min={1}]: [setNewTaskFreq(parseInt(e.target.value))].  The attribute
    bounds the stepping of the field, not the text typed into it. *)
Definition onChangeFreq (value : string) (v : view) : view :=
  View (pets v) (tasks v) (loading v) (showAddTask v) (newTaskTitle v)
       (newTaskType v) (parseInt value).

(** A string or null is falsy when it is null or empty. *)
Definition truthy (s : option string) : option string :=
  match s with
  | Some x => if decide (x = "") then None else Some x
  | None => None
  end.

(** The record built by [handleAddTask]; [clockId] is the time read by
    [Date.now()], [clockDue] the time read by [new Date()] after it.
    [None] is the early return. *)
Definition newTask (clockId clockDue : Z) (v : view) : option Task.t :=
  _ ← truthy (Some (newTaskTitle v));
  pet ← truthy (showAddTask v);
  due ← JSDate.toISOString (Num clockDue);
  Some (Task.mk (toString clockId) pet (newTaskType v) (newTaskTitle v)
                (newTaskFreq v) None due).

Definition handleAddTask (clockId clockDue : Z)
    (eSave ePets eTasks : StorageService.env)
    (st : StorageService.state) (v : view)
  : outcome IDB.reason unit * StorageService.state * view :=
  match newTask clockId clockDue v with
  | None => (Resolved tt, st, v)
  | Some task =>
      match StorageService.saveTask eSave task st with
      | (Resolved _, st') =>
          match loadData ePets eTasks st' v with
          | (Resolved _, v') =>
              (Resolved tt, st',
               View (pets v') (tasks v') (loading v') None "" (newTaskType v')
                    (Num 1))
          | (o, v') => (o, st', v')
          end
      | (o, st') => (o, st', v)
      end
  end.

(** The part of the state of the view that the pet form reads and
    writes. *)
Record petForm : Type := PetForm {
  showAddPet : bool;
  newPetName : string;
  newPetBreed : string;
  newPetImage : option string
}.

(** The record built by [handleAddPet]; [clockId] and [clockUrl] are the
    times read by the two calls of [Date.now()], the second of which is
    made when no image was chosen.  [None] is the early return. *)
Definition newPet (clockId clockUrl : Z) (f : petForm) : option Pet.t :=
  _ ← truthy (Some (newPetName f));
  Some (Pet.mk (toString clockId) (newPetName f) (newPetBreed f) None
          (match truthy (newPetImage f) with
           | Some image => image
           | None =>
               "https://picsum.photos/200/200?random=" +:+ toString clockUrl
           end)).

Definition handleAddPet (clockId clockUrl : Z)
    (eSave ePets eTasks : StorageService.env)
    (st : StorageService.state) (v : view) (f : petForm)
  : outcome IDB.reason unit * StorageService.state * view * petForm :=
  match newPet clockId clockUrl f with
  | None => (Resolved tt, st, v, f)
  | Some pet =>
      match StorageService.savePet eSave pet st with
      | (Resolved _, st') =>
          match loadData ePets eTasks st' v with
          | (Resolved _, v') => (Resolved tt, st', v', PetForm false "" "" None)
          | (o, v') => (o, st', v', f)
          end
      | (o, st') => (o, st', v, f)
      end
  end.

(** [handleDeletePet] and [handleDeleteTask], with [confirm] the answer
    to [window.confirm]: the deletion is awaited, the reload is not. *)
Definition handleDeletePet (confirm : bool)
    (eDelete ePets eTasks : StorageService.env) (id : string)
    (st : StorageService.state) (v : view)
  : outcome IDB.reason unit * StorageService.state * view :=
  if confirm then
    match StorageService.deletePet eDelete id st with
    | (Resolved _, st') => (Resolved tt, st', snd (loadData ePets eTasks st' v))
    | (o, st') => (o, st', v)
    end
  else (Resolved tt, st, v).

Definition handleDeleteTask (confirm : bool)
    (eDelete ePets eTasks : StorageService.env) (taskId : string)
    (st : StorageService.state) (v : view)
  : outcome IDB.reason unit * StorageService.state * view :=
  if confirm then
    match StorageService.deleteTask eDelete taskId st with
    | (Resolved _, st') => (Resolved tt, st', snd (loadData ePets eTasks st' v))
    | (o, st') => (o, st', v)
    end
  else (Resolved tt, st, v).

(** The tasks listed in the card of a pet:
    [tasks.filter(t => t.petId === pet.id)]. *)
Definition petTasks (v : view) (pet : Pet.t) : list Task.t :=
  List.filter (fun t => bool_decide (Task.petId t = Pet.id pet)) (tasks v).

End PetsView.

Module SettingsView.
Import JS.

(** The answer to [Notification.requestPermission()]. *)
Inductive permission : Type := granted | denied | default.

(** The effect on mount: the switch shows the stored setting. *)
Definition mount (st : StorageService.state) : bool :=
  StorageService.getNotificationSettings st.

(** [toggleNotifications], on the state [notificationsEnabled] of the
    switch: [supported] tells whether the window has [Notification], and
    [answer] is what the permission promise resolves to, [None] when it
    does not resolve. *)
Definition toggleNotifications (supported : bool) (answer : option permission)
    (notificationsEnabled : bool) (st : StorageService.state)
  : bool * StorageService.state :=
  let newState := negb notificationsEnabled in
  if newState then
    if negb supported then (notificationsEnabled, st)
    else
      match answer with
      | Some granted =>
          (true, StorageService.saveNotificationSettings true st)
      | Some _ => (false, StorageService.saveNotificationSettings false st)
      | None => (notificationsEnabled, st)
      end
  else (false, StorageService.saveNotificationSettings false st).

(** [handleClearData]: after the confirmation the reset is awaited and
    the page reloaded; the boolean tells whether the reload is reached. *)
Definition handleClearData (confirm : bool) (e : StorageService.env)
    (st : StorageService.state)
  : outcome IDB.reason unit * StorageService.state * bool :=
  if confirm then
    match StorageService.clearAllData e st with
    | (Resolved _, st') => (Resolved tt, st', true)
    | (o, st') => (o, st', false)
    end
  else (Resolved tt, st, false).

End SettingsView.

(** ** The service worker *)

Module ServiceWorker.

Definition CACHE_NAME : string := "dlive-cache-v2".

Record Request : Type := mkRequest {
  url : string;
  method : string
}.

(** A response: its status, its type ('basic', 'cors', 'opaque', ...) and
    its body. *)
Record Response : Type := mkResponse {
  status : Z;
  type : string;
  body : string
}.

(** The cache storage of the origin: its named caches in the order of
    their creation, each a map from the URL of a GET request to the
    response stored for it. *)

(** [caches.keys()] *)
Definition keys (cs : list (string * gmap string Response)) : list string :=
  cs.*1.

(** [caches.delete(name)] *)
Definition delete (name : string) (cs : list (string * gmap string Response))
  : list (string * gmap string Response) :=
  filter (fun c => c.1 <> name) cs.

(** [caches.open(name)] creates the cache when there is none of that
    name. *)
Definition open (name : string) (cs : list (string * gmap string Response))
  : list (string * gmap string Response) :=
  if decide (name ∈ keys cs) then cs else cs ++ [(name, ∅)].

(** [cache.match(request)]: only a GET request matches. *)
Definition cache_match (request : Request) (cache : gmap string Response)
  : option Response :=
  if decide (method request = "GET") then cache !! url request else None.

(** [caches.match(request)]: the first match, in the order of creation of
    the caches. *)
Fixpoint match_ (request : Request) (cs : list (string * gmap string Response))
  : option Response :=
  match cs with
  | [] => None
  | (_, cache) :: rest =>
      match cache_match request cache with
      | Some response => Some response
      | None => match_ request rest
      end
  end.

(** [cache.put(request, response)] on the cache called [name]. *)
Definition put (name : string) (request : Request) (response : Response)
    (cs : list (string * gmap string Response))
  : list (string * gmap string Response) :=
  (fun c => if decide (c.1 = name)
            then (c.1, <[url request := response]> c.2) else c) <$> cs.

(** The activate handler: every cache whose name is not [CACHE_NAME] is
    deleted. *)
Definition onActivate (cs : list (string * gmap string Response))
  : list (string * gmap string Response) :=
  foldl (fun cs cacheName =>
           if decide (cacheName <> CACHE_NAME) then delete cacheName cs
           else cs)
        cs (keys cs).

Section Fetch.
(** [network] is [fetch]: [None] when it rejects.  [accepts] tells
    whether [cache.put] takes the pair, which it refuses for a request
    that is not http(s) and for some responses. *)
Context (network : Request -> option Response)
        (accepts : Request -> Response -> bool).

(** The fetch handler: what [respondWith] is given ([None] for undefined)
    and the cache storage once the handler has run to its end. *)
Definition onFetch (request : Request)
    (cs : list (string * gmap string Response))
  : option Response * list (string * gmap string Response) :=
  match match_ request cs with
  | Some response => (Some response, cs)
  | None =>
      match network request with
      | None => (None, cs)
      | Some response =>
          if negb (status response =? 200)
             || (negb (bool_decide (type response = "basic"))
                 && negb (bool_decide (type response = "cors")))
          then (Some response, cs)
          else
            let cs' := open CACHE_NAME cs in
            (Some response,
             if bool_decide (method request = "GET")
                && accepts request response
             then put CACHE_NAME request response cs'
             else cs')
      end
  end.

End Fetch.
End ServiceWorker.

(** ** Vocabulary of the specification *)

Module Spec.
Import JS JSDate.

Section Host.
Context `{host : Platform}.

(** The calendar date of an instant: the number of its day in local
    time. *)
Definition calendarDate (t : Z) : Z := Day (LocalTime t).

(** [T] plus [F] days in calendar-day arithmetic on local date components:
    the local calendar date moves by [F] days, the local time of day is
    kept, and the result is the instant of that local date and time; it is
    invalid when that instant is outside the range of time values. *)
Definition plusDays (T F : Z) : number :=
  TimeClip
    (Num (UTC ((calendarDate T + F) * msPerDay + TimeWithinDay (LocalTime T)))).

(** The instant a task is due. *)
Definition dueTime (task : Task.t) : number :=
  ofString (Task.nextDueDate task).

(** A task is due at [clock] when its [nextDueDate], truncated to
    calendar-date granularity, is on or before the calendar date of
    [clock]. *)
Definition due (clock : Z) (task : Task.t) : Prop :=
  match dueTime task with
  | Num d => calendarDate d <= calendarDate clock
  | NaN => False
  end.

(** A task whose [nextDueDate] is read as a date. *)
Definition valid (task : Task.t) : Prop := dueTime task <> NaN.

(** Ascending order of [nextDueDate]. *)
Definition ascending (l : list Task.t) : Prop :=
  StronglySorted (fun a b => le (dueTime a) (dueTime b) = true) l.

(** The parser of the host reads back what [toISOString] writes, as
    ECMA-262 has every engine do (21.4.3.2). *)
Definition reads_ISO : Prop :=
  forall (t : Z) (s : string),
    Z.abs t <= 8640000000000000 -> toISOString (Num t) = Some s ->
    parse s = Num t.

(** Local calendar dates never run backwards as time passes. *)
Definition calendar_monotone : Prop :=
  forall a b : Z, a <= b -> calendarDate a <= calendarDate b.

End Host.

(** Every record is stored under its own [id], as the key path of the
    object stores has it. *)
Definition keyed (st : StorageService.state) : Prop :=
  map_Forall (fun key pet => Pet.id pet = key)
             (StorageService.pets (StorageService.db st))
  /\ map_Forall (fun key task => Task.id task = key)
                (StorageService.tasks (StorageService.db st)).

(** The fixed replies of the assistant service. *)
Definition fallbacks : list string :=
  [ "Пожалуйста, настройте API Key для работы помощника.";
    "Извините, я не смог придумать ответ.";
    "Произошла ошибка при связи с сервером AI. Попробуйте позже." ].

End Spec.

(** ** Hosts and stores used in the examples *)

Module Examples.
Import JS JSDate StorageService.

(** A machine on UTC whose engine parses the ISO format only. *)
Definition utc : Platform :=
  {| LocalTZA := fun _ _ => 0; parse := parseISO |}.

(** A machine one hour east of UTC until the instant [1711846800000]
    (2024-03-31T01:00Z) and two hours east from then on, as Central Europe
    was in 2024. *)
Definition cet2024 : Platform :=
  {| LocalTZA := fun t isUTC =>
       let switch := if isUTC then 1711846800000 else 1711846800000 + 7200000 in
       if t <? switch then 3600000 else 7200000;
     parse := parseISO |}.

Definition rex : Pet.t := Pet.mk "p1" "Rex" "" None "data:image/jpeg;base64,".
Definition tom : Pet.t := Pet.mk "p2" "Tom" "cat" (Some (Num 4)) "data:,".

Definition pill : Task.t :=
  Task.mk "t1" "p1" PILL "Pill" (Num 30) None "2024-01-01T08:00:00.000Z".
Definition ears : Task.t :=
  Task.mk "t2" "p2" EARS "Ears" (Num 7) None "2024-01-02T08:00:00.000Z".
Definition nails : Task.t :=
  Task.mk "t3" "p1" NAILS "Nails" (Num 14) None "2024-01-03T08:00:00.000Z".

(** Two pets and three tasks, two of them of the first pet. *)
Definition home : state :=
  State (Stores (<["p1" := rex]> (<["p2" := tom]> ∅))
                (<["t1" := pill]> (<["t2" := ears]> (<["t3" := nails]> ∅))))
        (<[THEME_KEY := "dark"]> (<[NOTIFICATIONS_KEY := "true"]> ∅)).

(** A task whose pet is gone. *)
Definition orphan : state :=
  State (Stores ∅ (<["t2" := ears]> ∅)) ∅.

End Examples.

(** * Properties *)

(** ** The calendar *)

Section Calendar.
Import JS JSDate.

Lemma DayFromYear_step (y : Z) :
  DayFromYear (y + 1) = DayFromYear y + DaysInYear y.
Proof.
  unfold DayFromYear, DaysInYear.
  repeat match goal with
         | |- context [?a =? ?b] => destruct (Z.eqb_spec a b)
         end; simpl negb; cbv iota;
    Z.to_euclidean_division_equations; lia.
Qed.

Lemma DaysInYear_cases (y : Z) : DaysInYear y = 365 \/ DaysInYear y = 366.
Proof.
  unfold DaysInYear.
  repeat match goal with
         | |- context [?a =? ?b] => destruct (Z.eqb_spec a b)
         end; simpl; auto.
Qed.

Lemma DayFromYear_mono (y y' : Z) : y <= y' -> DayFromYear y <= DayFromYear y'.
Proof.
  intros Hle. unfold DayFromYear. Z.to_euclidean_division_equations. lia.
Qed.

(** [YearFromDay] meets its definition in ECMA-262: the year found is the
    one whose days include [d]. *)
Lemma YearFromDay_spec (d : Z) :
  DayFromYear (YearFromDay d) <= d < DayFromYear (YearFromDay d + 1).
Proof.
  unfold YearFromDay.
  set (y := 1970 + 400 * d / 146097).
  assert (Hlo : DayFromYear (y - 1) <= d).
  { unfold DayFromYear, y. Z.to_euclidean_division_equations. lia. }
  assert (Hhi : d < DayFromYear (y + 2)).
  { unfold DayFromYear, y. Z.to_euclidean_division_equations. lia. }
  destruct (Z.ltb_spec d (DayFromYear y)).
  - replace (y - 1 + 1) with y by lia. lia.
  - destruct (Z.leb_spec (DayFromYear (y + 1)) d).
    + replace (y + 1 + 1) with (y + 2) by lia. lia.
    + lia.
Qed.

Lemma YearFromDay_unique (y d : Z) :
  DayFromYear y <= d < DayFromYear (y + 1) -> YearFromDay d = y.
Proof.
  intros [Hlo Hhi].
  pose proof (YearFromDay_spec d) as [Hlo' Hhi'].
  destruct (Z.lt_trichotomy (YearFromDay d) y) as [Hlt | [Heq | Hgt]]; [| done |].
  - pose proof (DayFromYear_mono (YearFromDay d + 1) y). lia.
  - pose proof (DayFromYear_mono (y + 1) (YearFromDay d)). lia.
Qed.

Lemma DayWithinYear_range (t : Z) :
  0 <= DayWithinYear t < DaysInYear (YearFromTime t).
Proof.
  unfold DayWithinYear, YearFromTime.
  pose proof (YearFromDay_spec (Day t)) as [Hlo Hhi].
  rewrite DayFromYear_step in Hhi. lia.
Qed.

Lemma InLeapYear_cases (t : Z) :
  (InLeapYear t = 0 /\ DaysInYear (YearFromTime t) = 365)
  \/ (InLeapYear t = 1 /\ DaysInYear (YearFromTime t) = 366).
Proof.
  unfold InLeapYear.
  destruct (DaysInYear_cases (YearFromTime t)) as [-> | ->]; simpl; auto.
Qed.

Lemma MonthFromTime_range (t : Z) : 0 <= MonthFromTime t <= 11.
Proof.
  unfold MonthFromTime.
  repeat match goal with
         | |- context [?a <? ?b] => destruct (Z.ltb_spec a b)
         end; lia.
Qed.

Lemma DateFromTime_range (t : Z) : 1 <= DateFromTime t <= 31.
Proof.
  pose proof (DayWithinYear_range t) as Hd.
  unfold DateFromTime, MonthFromTime.
  destruct (InLeapYear_cases t) as [[-> Hy] | [-> Hy]]; rewrite Hy in Hd;
    repeat match goal with
           | |- context [?a <? ?b] => destruct (Z.ltb_spec a b)
           end; simpl; lia.
Qed.

(** A day number is recovered from its year, month and date. *)
Lemma Day_components (t : Z) :
  Day t =
  DayFromYear (YearFromTime t)
  + DaysBeforeMonth (MonthFromTime t) (InLeapYear t) + DateFromTime t - 1.
Proof. unfold DateFromTime, DayWithinYear. lia. Qed.

(** Setting the date of the month to the current one plus [F] moves the
    day number by [F], across the ends of months and years. *)
Lemma MakeDay_shift (t F : Z) :
  MakeDay (YearFromTime t) (MonthFromTime t) (Num (DateFromTime t + F))
  = Num (Day t + F).
Proof.
  pose proof (MonthFromTime_range t) as Hm.
  unfold MakeDay.
  replace (MonthFromTime t / 12) with 0
    by (symmetry; apply Z.div_small; lia).
  rewrite Z.mod_small by lia. rewrite Z.add_0_r.
  fold (InLeapYear t).
  f_equal. pose proof (Day_components t). lia.
Qed.

Lemma Day_TimeWithinDay (t : Z) : t = Day t * msPerDay + TimeWithinDay t.
Proof.
  unfold Day, TimeWithinDay, msPerDay.
  pose proof (Z.div_mod t 86400000). lia.
Qed.

Lemma TimeWithinDay_range (t : Z) : 0 <= TimeWithinDay t < msPerDay.
Proof. unfold TimeWithinDay, msPerDay. apply Z.mod_pos_bound. lia. Qed.

Lemma Day_make (d r : Z) : 0 <= r < msPerDay -> Day (d * msPerDay + r) = d.
Proof.
  unfold Day, msPerDay. intros Hr.
  symmetry. apply (Z.div_unique _ _ d r); lia.
Qed.

Lemma first_of_month (ym mn leap : Z) :
  0 <= mn <= 11 ->
  leap = (if DaysInYear ym =? 366 then 1 else 0) ->
  let t := (DayFromYear ym + DaysBeforeMonth mn leap) * msPerDay in
  YearFromTime t = ym /\ MonthFromTime t = mn /\ DateFromTime t = 1.
Proof.
  intros Hmn Hleap t.
  assert (Hcases : mn = 0 \/ mn = 1 \/ mn = 2 \/ mn = 3 \/ mn = 4 \/ mn = 5
                   \/ mn = 6 \/ mn = 7 \/ mn = 8 \/ mn = 9 \/ mn = 10
                   \/ mn = 11) by lia.
  assert (Hyl : (leap = 0 /\ DaysInYear ym = 365)
                \/ (leap = 1 /\ DaysInYear ym = 366)).
  { rewrite Hleap. destruct (DaysInYear_cases ym) as [-> | ->]; simpl; auto. }
  assert (Hday : Day t = DayFromYear ym + DaysBeforeMonth mn leap).
  { unfold t.
    replace (_ * msPerDay) with
      ((DayFromYear ym + DaysBeforeMonth mn leap) * msPerDay + 0) by lia.
    apply Day_make. unfold msPerDay. lia. }
  assert (Hyear : YearFromTime t = ym).
  { unfold YearFromTime. rewrite Hday. apply YearFromDay_unique.
    rewrite DayFromYear_step.
    destruct Hyl as [[H0 H1] | [H0 H1]]; rewrite H0, H1;
      repeat destruct Hcases as [Hc | Hcases]; try rewrite Hc;
      try rewrite Hcases; simpl; lia. }
  assert (Hwithin : DayWithinYear t = DaysBeforeMonth mn leap)
    by (unfold DayWithinYear; rewrite Hyear, Hday; lia).
  assert (Hin : InLeapYear t = leap)
    by (unfold InLeapYear; by rewrite Hyear, Hleap).
  assert (Hmonth : MonthFromTime t = mn).
  { unfold MonthFromTime. rewrite Hwithin, Hin.
    destruct Hyl as [[H0 _] | [H0 _]]; rewrite H0;
      repeat destruct Hcases as [Hc | Hcases]; try rewrite Hc;
      try rewrite Hcases; reflexivity. }
  split; [done | split; [done |]].
  unfold DateFromTime. rewrite Hwithin, Hmonth, Hin. lia.
Qed.

(** [MakeDay] meets its definition in ECMA-262: for the date 1 it is the
    day of a time value of the year and month asked for and of date 1,
    and other dates are counted from there. *)
Lemma MakeDay_first_of_month (year month : Z) :
  exists day,
    MakeDay year month (Num 1) = Num day
    /\ YearFromTime (day * msPerDay) = year + month / 12
    /\ MonthFromTime (day * msPerDay) = month mod 12
    /\ DateFromTime (day * msPerDay) = 1
    /\ forall dt, MakeDay year month (Num dt) = Num (day + dt - 1).
Proof.
  pose proof (Z.mod_pos_bound month 12) as Hmn.
  destruct (first_of_month (year + month / 12) (month mod 12) _
              ltac:(lia) eq_refl) as (Hy & Hm & Hd).
  eexists. split; [reflexivity |].
  replace (_ + 1 - 1) with
    (DayFromYear (year + month / 12)
     + DaysBeforeMonth (month mod 12)
         (if DaysInYear (year + month / 12) =? 366 then 1 else 0)) by lia.
  repeat (split; [done |]).
  intros dt. unfold MakeDay. f_equal; lia.
Qed.

End Calendar.

(** ** Advancing a date by days *)

Section SetDate.
Import JS JSDate.
Context `{host : Platform}.

(** [d.setDate(d.getDate() + F)] is calendar-day addition. *)
Lemma setDate_getDate (T F : Z) :
  setDate (ofDate (Num T)) (add (getDate (Num T)) (Num F)) = Spec.plusDays T F.
Proof.
  unfold setDate, ofDate, getDate, add, Spec.plusDays, Spec.calendarDate.
  rewrite MakeDay_shift. reflexivity.
Qed.

(** Where the offset of local time is constant, calendar days and elapsed
    days agree. *)
Lemma plusDays_fixed_offset (offset T F : Z) :
  (forall t b, LocalTZA t b = offset) ->
  Spec.plusDays T F = TimeClip (Num (T + F * msPerDay)).
Proof.
  intros Hoff. unfold Spec.plusDays, Spec.calendarDate, UTC, LocalTime.
  rewrite !Hoff. do 2 f_equal.
  pose proof (Day_TimeWithinDay (T + offset)). lia.
Qed.

(** The local date moves by [F] and the local time of day is kept,
    wherever the offset at the resulting instant is the offset of the
    local time it was made from (no change of offset in between). *)
Lemma plusDays_local (T F r : Z) :
  let local :=
    (Spec.calendarDate T + F) * msPerDay + TimeWithinDay (LocalTime T) in
  LocalTZA (UTC local) true = LocalTZA local false ->
  Spec.plusDays T F = Num r ->
  Spec.calendarDate r = Spec.calendarDate T + F
  /\ TimeWithinDay (LocalTime r) = TimeWithinDay (LocalTime T).
Proof.
  intros local Hoff. unfold Spec.plusDays, TimeClip. fold local.
  case_match; [| done]. intros [= <-].
  assert (Hl : LocalTime (UTC local) = local).
  { unfold LocalTime. rewrite Hoff. unfold UTC. lia. }
  unfold Spec.calendarDate at 1. rewrite Hl.
  pose proof (TimeWithinDay_range (LocalTime T)) as Hr.
  assert (Hday : Day local = Spec.calendarDate T + F)
    by (unfold local; by rewrite Day_make).
  split; [done |].
  pose proof (Day_TimeWithinDay local) as Hd.
  rewrite Hday in Hd. unfold local in Hd at 1. lia.
Qed.

End SetDate.

(** ** Object stores *)

Section Stores.
Import JS IDB StorageService.

Lemma entries_Permutation {A : Type} (store : gmap string A) :
  entries store ≡ₚ map_to_list store.
Proof. apply merge_sort_Permutation. Qed.

Lemma elem_of_entries {A : Type} (store : gmap string A) key value :
  (key, value) ∈ entries store <-> store !! key = Some value.
Proof. by rewrite entries_Permutation, elem_of_map_to_list. Qed.

Lemma elem_of_getAll {A : Type} (store : gmap string A) value :
  value ∈ getAll store <-> exists key, store !! key = Some value.
Proof.
  unfold getAll. rewrite list_elem_of_fmap. split.
  - intros [[key v] [-> Hin]]. exists key. by apply elem_of_entries.
  - intros [key Hkey]. exists (key, value). split; [done |].
    by apply elem_of_entries.
Qed.

Lemma getAll_empty {A : Type} : getAll (∅ : gmap string A) = [].
Proof.
  unfold getAll, entries. rewrite map_to_list_empty. reflexivity.
Qed.

(** What the cursor loop leaves of [store] after visiting [records]. *)
Lemma cursor_loop_lookup id records store key :
  cursor_loop id records store !! key =
  if decide (Exists (fun kt => kt.1 = key /\ Task.petId kt.2 = id) records)
  then None else store !! key.
Proof.
  revert store. induction records as [| [k task] rest IH]; intros store.
  - reflexivity.
  - simpl. rewrite IH. clear IH.
    destruct (decide (Exists _ rest)) as [Hrest | Hrest].
    + rewrite decide_True; [done | by right].
    + destruct (decide (Task.petId task = id)) as [Hpet | Hpet].
      * destruct (decide (k = key)) as [-> | Hk].
        -- unfold delete. rewrite lookup_delete_eq.
           rewrite decide_True; [done | by left].
        -- unfold delete. rewrite lookup_delete_ne by done.
           rewrite decide_False; [done |].
           intros [[? _] | ?]%Exists_cons; simpl in *; done.
      * rewrite decide_False; [done |].
        intros [[_ ?] | ?]%Exists_cons; simpl in *; done.
Qed.

(** The loop of [deletePet] removes the tasks of the pet and no other. *)
Lemma cursor_loop_entries id (store : gmap string Task.t) :
  cursor_loop id (entries store) store
  = filter (fun kt => Task.petId kt.2 <> id) store.
Proof.
  apply map_eq. intros key. rewrite cursor_loop_lookup.
  case_decide as Hex.
  - apply Exists_exists in Hex as ([k task] & Hin & <- & Hpet). simpl in *.
    apply elem_of_entries in Hin.
    symmetry. apply map_lookup_filter_None. right. intros task' Hl.
    simpl. rewrite Hin in Hl. injection Hl as <-. tauto.
  - destruct (store !! key) as [task |] eqn:Hl.
    + symmetry. apply map_lookup_filter_Some. split; [done |].
      simpl. intros Hpet. apply Hex. apply Exists_exists.
      exists (key, task). split; [by apply elem_of_entries | done].
    + symmetry. apply map_lookup_filter_None. by left.
Qed.

End Stores.

(** ** The storage service *)

Section Service.
Import JS IDB StorageService.

(** A read lists what the store holds, or nothing at all. *)
Lemma getPets_Resolved e st l :
  getPets e st = Resolved l -> l = [] \/ l = getAll (pets (db st)).
Proof.
  unfold getPets, openDB.
  destruct e as [[err |] [| e | e]]; simpl; intros [= <-]; auto.
Qed.

Lemma getTasks_Resolved e st l :
  getTasks e st = Resolved l -> l = [] \/ l = getAll (tasks (db st)).
Proof.
  unfold getTasks, openDB.
  destruct e as [[err |] [| e | e]]; simpl; intros [= <-]; auto.
Qed.

Lemma getPets_no_faults st :
  getPets no_faults st = Resolved (getAll (pets (db st))).
Proof. reflexivity. Qed.

Lemma getTasks_no_faults st :
  getTasks no_faults st = Resolved (getAll (tasks (db st))).
Proof. reflexivity. Qed.

Lemma deletePet_no_faults id st :
  deletePet no_faults id st =
  (Resolved tt,
   set_db (Stores (base.delete id (pets (db st)))
                  (filter (fun kt => Task.petId kt.2 <> id) (tasks (db st))))
          st).
Proof.
  unfold deletePet. simpl. by rewrite cursor_loop_entries.
Qed.

(** [deletePet] resolves on the completion of its transaction, and so
    only when both removals are committed. *)
Lemma deletePet_Resolved e id st st' :
  deletePet e id st = (Resolved tt, st') ->
  st' = snd (deletePet no_faults id st).
Proof.
  unfold deletePet, openDB.
  destruct e as [[err |] [| e | e]]; simpl; intros [= <-]; done.
Qed.

Lemma deletePet_atomic e id st :
  snd (deletePet e id st) = st
  \/ snd (deletePet e id st) = snd (deletePet no_faults id st).
Proof.
  unfold deletePet, openDB.
  destruct st as [d ls].
  destruct e as [[err |] [| e | e]]; simpl; auto.
Qed.

(** The invariant of the key path is kept by every operation. *)
Lemma keyed_savePet e pet st : Spec.keyed st -> Spec.keyed (snd (savePet e pet st)).
Proof.
  intros [Hp Ht]. unfold savePet, openDB.
  destruct st as [d ls]. destruct e as [[err |] [| e | e]]; simpl; try done.
  split; [| done]. simpl. by apply map_Forall_insert_2.
Qed.

Lemma keyed_saveTask e task st :
  Spec.keyed st -> Spec.keyed (snd (saveTask e task st)).
Proof.
  intros [Hp Ht]. unfold saveTask, openDB.
  destruct st as [d ls]. destruct e as [[err |] [| e | e]]; simpl; try done.
  split; [done |]. simpl. by apply map_Forall_insert_2.
Qed.

Lemma keyed_deleteTask e id st :
  Spec.keyed st -> Spec.keyed (snd (deleteTask e id st)).
Proof.
  intros [Hp Ht]. unfold deleteTask, openDB.
  destruct st as [d ls]. destruct e as [[err |] [| e | e]]; simpl; try done.
  split; [done |]. simpl. by apply map_Forall_delete.
Qed.

Lemma keyed_deletePet e id st :
  Spec.keyed st -> Spec.keyed (snd (deletePet e id st)).
Proof.
  intros [Hp Ht].
  destruct (deletePet_atomic e id st) as [-> | ->]; [done |].
  rewrite deletePet_no_faults. split; simpl.
  - by apply map_Forall_delete.
  - intros key task [Hl _]%map_lookup_filter_Some. by apply Ht.
Qed.

Lemma keyed_clearAllData e st :
  Spec.keyed st -> Spec.keyed (snd (clearAllData e st)).
Proof.
  intros [Hp Ht]. unfold clearAllData, openDB.
  destruct st as [d ls].
  destruct e as [[err |] [| e | e]]; simpl; try done;
    split; apply map_Forall_empty.
Qed.

Lemma keyed_empty ls : Spec.keyed (State (Stores ∅ ∅) ls).
Proof. split; apply map_Forall_empty. Qed.

(** C1. For every pet id, [deletePet] removes the pet and, in the same
    transaction, every task whose [petId] is that id: the call resolves
    when nothing fails; once it has resolved, whatever the faults, no
    pet of that id and no task of that pet is listed; and under every
    fault the stores are left as they were or hold both removals. *)
Theorem deletePet_cascade (id : string) (st : state) :
  Spec.keyed st ->
  (exists st', deletePet no_faults id st = (Resolved tt, st'))
  /\ (forall e st', deletePet e id st = (Resolved tt, st') ->
        (forall e' l, getPets e' st' = Resolved l ->
           forall pet, pet ∈ l -> Pet.id pet <> id)
        /\ (forall e' l, getTasks e' st' = Resolved l ->
              forall task, task ∈ l -> Task.petId task <> id))
  /\ (forall e, snd (deletePet e id st) = st
                \/ snd (deletePet e id st) = snd (deletePet no_faults id st)).
Proof.
  intros [Hp _]. split; [| split].
  - eexists. apply deletePet_no_faults.
  - intros e st' ->%deletePet_Resolved. rewrite deletePet_no_faults. simpl.
    split.
    + intros e' l [-> | ->]%getPets_Resolved pet Hin.
      * by apply elem_of_nil in Hin.
      * simpl in Hin. apply elem_of_getAll in Hin as [key Hkey].
        apply lookup_delete_Some in Hkey as [Hne Hkey].
        apply Hp in Hkey. simpl in Hkey. congruence.
    + intros e' l [-> | ->]%getTasks_Resolved task Hin.
      * by apply elem_of_nil in Hin.
      * simpl in Hin. apply elem_of_getAll in Hin as [key Hkey].
        by apply map_lookup_filter_Some in Hkey as [_ Hpet].
  - intros e. apply deletePet_atomic.
Qed.

(** The pets and tasks that [deletePet] keeps are kept as they were. *)
Lemma deletePet_keeps id st :
  let st' := snd (deletePet no_faults id st) in
  (forall key, key <> id -> pets (db st') !! key = pets (db st) !! key)
  /\ (forall key task, tasks (db st) !! key = Some task ->
        Task.petId task <> id -> tasks (db st') !! key = Some task)
  /\ localStorage st' = localStorage st.
Proof.
  rewrite deletePet_no_faults. simpl. split; [| split; [| done]].
  - intros key Hne. by rewrite lookup_delete_ne.
  - intros key task Hl Hpet. by apply map_lookup_filter_Some.
Qed.

End Service.

(** ** Replacement, absence, reset and faults *)

Section Writes.
Import JS IDB StorageService.

Lemma NoDup_getAll {A : Type} (keyPath : A -> string) (store : gmap string A) :
  map_Forall (fun key value => keyPath value = key) store ->
  NoDup (getAll store).
Proof.
  intros Hkeyed. unfold getAll. rewrite entries_Permutation.
  apply (NoDup_fmap_1 keyPath).
  replace (keyPath <$> (map_to_list store).*2) with (map_to_list store).*1.
  { apply NoDup_fst_map_to_list. }
  rewrite <- list_fmap_compose. apply list_fmap_ext.
  intros i [key value] Hi. simpl.
  apply list_elem_of_lookup_2, elem_of_map_to_list in Hi.
  symmetry. by apply Hkeyed in Hi.
Qed.

Lemma NoDup_all_equal {A : Type} (a : A) (l : list A) :
  NoDup l -> (forall x, x ∈ l -> x = a) -> a ∈ l -> l = [a].
Proof.
  intros Hnd Hall Hin. destruct l as [| x l].
  - by apply elem_of_nil in Hin.
  - assert (x = a) as -> by (apply Hall; by left).
    destruct l as [| y l]; [done |].
    assert (y = a) as -> by (apply Hall; right; by left).
    apply NoDup_cons in Hnd as [Hnotin _]. exfalso. apply Hnotin. by left.
Qed.

(** After a record has been put, the store lists one record of its key,
    the record put. *)
Lemma put_listed {A : Type} `{EqDecision A} (keyPath : A -> string)
    (value : A) (store : gmap string A) :
  map_Forall (fun key v => keyPath v = key) store ->
  filter (fun v => keyPath v = keyPath value) (getAll (put keyPath value store))
  = [value].
Proof.
  intros Hkeyed.
  assert (Hkeyed' : map_Forall (fun key v => keyPath v = key)
                               (put keyPath value store))
    by (by apply map_Forall_insert_2).
  apply NoDup_all_equal.
  - apply NoDup_filter. by apply (NoDup_getAll keyPath).
  - intros x [Hx [key Hl]%elem_of_getAll]%list_elem_of_filter.
    pose proof (Hkeyed' _ _ Hl) as Hkey. simpl in Hkey.
    unfold put in Hl. rewrite <- Hkey, Hx, lookup_insert_eq in Hl. congruence.
  - apply list_elem_of_filter. split; [done |].
    apply elem_of_getAll. exists (keyPath value). apply lookup_insert_eq.
Qed.

(** C5. A pet or task written by [savePet] or [saveTask] under the [id]
    of a record already stored, or under a new one, replaces it whole:
    the write resolves, and afterwards the listing holds exactly one
    record of that [id], equal in every field to the record written. *)
Theorem save_replaces (pet : Pet.t) (task : Task.t) (st : state) :
  Spec.keyed st ->
  (fst (savePet no_faults pet st) = Resolved tt
   /\ forall l, getPets no_faults (snd (savePet no_faults pet st)) = Resolved l ->
        filter (fun p => Pet.id p = Pet.id pet) l = [pet])
  /\ (fst (saveTask no_faults task st) = Resolved tt
      /\ forall l,
           getTasks no_faults (snd (saveTask no_faults task st)) = Resolved l ->
           filter (fun t => Task.id t = Task.id task) l = [task]).
Proof.
  intros [Hp Ht]. split; (split; [reflexivity |]); intros l [= <-]; simpl.
  - by apply put_listed.
  - by apply put_listed.
Qed.

(** The records under other keys are left as they were. *)
Lemma savePet_others e pet st key :
  key <> Pet.id pet ->
  pets (db (snd (savePet e pet st))) !! key = pets (db st) !! key
  /\ tasks (db (snd (savePet e pet st))) = tasks (db st).
Proof.
  intros Hne. unfold savePet, openDB.
  destruct e as [[err |] [| e | e]]; simpl; try done.
  split; [| done]. unfold put. by rewrite lookup_insert_ne.
Qed.

Lemma saveTask_others e task st key :
  key <> Task.id task ->
  tasks (db (snd (saveTask e task st))) !! key = tasks (db st) !! key
  /\ pets (db (snd (saveTask e task st))) = pets (db st).
Proof.
  intros Hne. unfold saveTask, openDB.
  destruct e as [[err |] [| e | e]]; simpl; try done.
  split; [| done]. unfold put. by rewrite lookup_insert_ne.
Qed.

(** C7. Once [clearAllData] has resolved, [getPets] and [getTasks] list
    nothing, [getTheme] is 'light' and [getNotificationSettings] is
    false; and it does resolve when nothing fails. *)
Theorem clearAllData_resets (st : state) :
  (exists st', clearAllData no_faults st = (Resolved tt, st'))
  /\ forall e st', clearAllData e st = (Resolved tt, st') ->
       getPets no_faults st' = Resolved []
       /\ getTasks no_faults st' = Resolved []
       /\ getTheme st' = "light"
       /\ getNotificationSettings st' = false.
Proof.
  split; [by eexists |].
  intros e st'. unfold clearAllData, openDB.
  destruct e as [[err |] [| e | e]]; simpl; intros [= <-].
  rewrite getPets_no_faults, getTasks_no_faults. simpl.
  unfold clear. rewrite !getAll_empty.
  unfold getTheme, getNotificationSettings. simpl.
  rewrite lookup_delete_ne by done. rewrite !lookup_delete_eq.
  split; [done | split; [done | split; [done |]]].
  by apply bool_decide_eq_false.
Qed.

(** The open fault, as the storage service treats it: a read resolves to
    the empty list, a write rejects with the error. *)
Lemma open_fault_reads err f st :
  getPets (Env (Some err) f) st = Resolved []
  /\ getTasks (Env (Some err) f) st = Resolved [].
Proof. done. Qed.

Lemma open_fault_writes err f pet task st :
  savePet (Env (Some err) f) pet st = (Rejected (request_error err), st)
  /\ saveTask (Env (Some err) f) task st = (Rejected (request_error err), st).
Proof. done. Qed.

Lemma request_fault_writes err pet task st :
  savePet (Env None (RequestFault err)) pet st
  = (Rejected (request_error err), st)
  /\ saveTask (Env None (RequestFault err)) task st
     = (Rejected (request_error err), st).
Proof. by destruct st. Qed.

(** C4, on the code: when the database opens and the [getAll] request
    fails, [getPets] and [getTasks] reject with the error of the request;
    they do not resolve to the empty list. *)
Theorem read_request_fault_rejects (err : DOMException) (st : state) :
  getPets (Env None (RequestFault err)) st = Rejected (request_error err)
  /\ getTasks (Env None (RequestFault err)) st = Rejected (request_error err).
Proof. done. Qed.

(** A write that resolved on the success of its request is lost when the
    commit fails after it. *)
Lemma commit_fault_writes err pet task st :
  savePet (Env None (CommitFault err)) pet st = (Resolved tt, st)
  /\ saveTask (Env None (CommitFault err)) task st = (Resolved tt, st).
Proof. by destruct st. Qed.

End Writes.

(** ** Completing a task *)

Section Completion.
Import JS IDB StorageService.
Context `{host : JSDate.Platform}.

Lemma set_db_id st : set_db (db st) st = st.
Proof. by destruct st. Qed.

Lemma stores_eta d : Stores (pets d) (tasks d) = d.
Proof. by destruct d. Qed.

Lemma toISOString_Num t : is_Some (JSDate.toISOString (Num t)).
Proof. by eexists. Qed.

(** The handler of [completeTask] on a stored task whose new due date is
    a valid date. *)
Lemma complete_handler_Some clock task store F r :
  Task.frequencyDays task = Num F ->
  Spec.plusDays clock F = Num r ->
  exists last next,
    JSDate.toISOString (Num clock) = Some last
    /\ JSDate.toISOString (Num r) = Some next
    /\ complete_handler clock (Some task) store
       = Some (<[Task.id task :=
                   Task.mk (Task.id task) (Task.petId task) (Task.type task)
                           (Task.title task) (Task.frequencyDays task)
                           (Some last) next]> store).
Proof.
  intros HF Hr.
  destruct (toISOString_Num clock) as [last Hlast].
  destruct (toISOString_Num r) as [next Hnext].
  exists last, next. split; [done | split; [done |]].
  destruct task as [i p ty ti fr ld nd]. simpl in HF. subst fr.
  unfold complete_handler. rewrite Hlast.
  cbn [mbind option_bind Task.frequencyDays Task.set_lastDoneDate].
  rewrite setDate_getDate, Hr, Hnext. reflexivity.
Qed.

(** With no fault, [completeTask] resolves with the stores the handler
    has made. *)
Lemma completeTask_no_faults T id st store' :
  complete_handler T (tasks (db st) !! id) (tasks (db st)) = Some store' ->
  completeTask no_faults T id st
  = (Resolved tt, set_db (Stores (pets (db st)) store') st).
Proof.
  intros Hh. unfold completeTask. simpl. unfold get. by rewrite Hh.
Qed.

(** C2. For a stored task with [frequencyDays = F], [completeTask] at the
    time [T] resolves and leaves under the task's key the record with
    [lastDoneDate] the ISO string of [T] and [nextDueDate] the ISO string
    of [T] plus [F] days, in calendar-day arithmetic on the local date;
    the record is put whole, in place of the one before. *)
Theorem completeTask_schedule (T F r : Z) (id : string) (task : Task.t)
    (st : state) :
  Spec.keyed st ->
  tasks (db st) !! id = Some task ->
  Task.frequencyDays task = Num F ->
  Spec.plusDays T F = Num r ->
  exists last next,
    JSDate.toISOString (Num T) = Some last
    /\ JSDate.toISOString (Num r) = Some next
    /\ completeTask no_faults T id st =
       (Resolved tt,
        set_db
          (Stores (pets (db st))
                  (<[id := Task.mk id (Task.petId task) (Task.type task)
                                   (Task.title task) (Num F) (Some last) next]>
                     (tasks (db st))))
          st).
Proof.
  intros [_ Ht] Hl HF Hr.
  destruct (complete_handler_Some T task (tasks (db st)) F r HF Hr)
    as (last & next & Hlast & Hnext & Hh).
  exists last, next. split; [done | split; [done |]].
  rewrite (completeTask_no_faults T id st _ ltac:(by rewrite Hl)).
  pose proof (Ht _ _ Hl) as Hid. simpl in Hid. by rewrite Hid, HF.
Qed.

(** What is left when the new due date is not a valid date: the handler
    throws, the transaction aborts, the promise stays pending. *)
Lemma completeTask_invalid T id task st :
  tasks (db st) !! id = Some task ->
  JSDate.setDate (Num T) (add (JSDate.getDate (Num T)) (Task.frequencyDays task))
  = NaN ->
  completeTask no_faults T id st = (Pending, st).
Proof.
  intros Hl Hnan. unfold completeTask, get, complete_handler.
  rewrite Hl. cbn [openDB open_error no_faults mbind option_bind].
  change (Task.frequencyDays (Task.set_lastDoneDate _ task))
    with (Task.frequencyDays task).
  unfold JSDate.ofDate. rewrite Hnan. simpl. by rewrite set_db_id.
Qed.

(** The stores after [completeTask], whatever the faults: as before, or
    with the record of the handler put. *)
Lemma completeTask_stores e clock id st :
  snd (completeTask e clock id st) = st
  \/ exists store',
       complete_handler clock (tasks (db st) !! id) (tasks (db st)) = Some store'
       /\ snd (completeTask e clock id st)
          = set_db (Stores (pets (db st)) store') st.
Proof.
  unfold completeTask, openDB, get.
  destruct e as [[err |] f]; simpl; [by left |].
  destruct (complete_handler clock (tasks (db st) !! id) (tasks (db st)))
    as [store' |] eqn:Hh; simpl.
  - destruct f; simpl; rewrite ?set_db_id; eauto.
  - left. destruct f; simpl; by rewrite set_db_id.
Qed.

Lemma keyed_completeTask e clock id st :
  Spec.keyed st -> Spec.keyed (snd (completeTask e clock id st)).
Proof.
  intros [Hp Ht].
  destruct (completeTask_stores e clock id st) as [-> | (store' & Hh & ->)];
    [done |].
  split; [done |]. simpl.
  destruct (tasks (db st) !! id) as [task |]; unfold complete_handler in Hh.
  - destruct (JSDate.toISOString (Num clock)) as [last |]; [| done].
    simpl in Hh.
    destruct (JSDate.toISOString _) as [next |]; [| done].
    simpl in Hh. injection Hh as <-. by apply map_Forall_insert_2.
  - by injection Hh as <-.
Qed.

(** C10. [completeTask] touches the [lastDoneDate] and [nextDueDate] of
    the task of the given key and nothing else: the pets, localStorage and
    the tasks under other keys are as before, and the task under the key,
    if there was one, has its [id], [petId], [type], [title] and
    [frequencyDays] as before; no task appears where there was none. *)
Theorem completeTask_frame (e : env) (clock : Z) (id : string) (st : state) :
  Spec.keyed st ->
  let st' := snd (completeTask e clock id st) in
  pets (db st') = pets (db st)
  /\ localStorage st' = localStorage st
  /\ (forall key, key <> id -> tasks (db st') !! key = tasks (db st) !! key)
  /\ match tasks (db st) !! id, tasks (db st') !! id with
     | Some task, Some task' =>
         Task.id task' = Task.id task
         /\ Task.petId task' = Task.petId task
         /\ Task.type task' = Task.type task
         /\ Task.title task' = Task.title task
         /\ Task.frequencyDays task' = Task.frequencyDays task
     | None, None => True
     | _, _ => False
     end.
Proof.
  intros [_ Ht] st'. subst st'.
  destruct (completeTask_stores e clock id st) as [-> | (store' & Hh & ->)].
  { repeat split; try done. by destruct (tasks (db st) !! id). }
  simpl. destruct (tasks (db st) !! id) as [task |] eqn:Hl.
  - pose proof (Ht _ _ Hl) as Hid. simpl in Hid.
    unfold complete_handler in Hh.
    destruct (JSDate.toISOString (Num clock)) as [last |]; [| done].
    simpl in Hh.
    destruct (JSDate.toISOString _) as [next |]; [| done].
    simpl in Hh. injection Hh as <-. unfold put. simpl. rewrite Hid.
    repeat split; try done.
    + intros key Hne. by rewrite lookup_insert_ne.
    + by rewrite lookup_insert_eq.
  - simpl in Hh. injection Hh as <-. rewrite Hl. repeat split; done.
Qed.

Lemma deleteTask_atomic e id st :
  snd (deleteTask e id st) = st
  \/ snd (deleteTask e id st) = snd (deleteTask no_faults id st).
Proof.
  unfold deleteTask, openDB. destruct st as [d ls].
  destruct e as [[err |] [| e | e]]; simpl; auto.
Qed.

(** C3, amended. [deleteTask] and [completeTask] on a key under which no
    task is stored, and [deletePet] on a key under which no pet is stored
    and to which no task refers, leave every stored record as it was,
    whatever the faults, and resolve when the storage does not fail. *)
Theorem absent_id_noop (clock : Z) (id : string) (st : state) :
  (tasks (db st) !! id = None ->
     (forall e, snd (deleteTask e id st) = st)
     /\ fst (deleteTask no_faults id st) = Resolved tt
     /\ (forall e, snd (completeTask e clock id st) = st)
     /\ fst (completeTask no_faults clock id st) = Resolved tt)
  /\ (pets (db st) !! id = None ->
      (forall key task, tasks (db st) !! key = Some task ->
                        Task.petId task <> id) ->
      (forall e, snd (deletePet e id st) = st)
      /\ fst (deletePet no_faults id st) = Resolved tt).
Proof.
  split.
  - intros Hl.
    assert (Hdel : deleteTask no_faults id st = (Resolved tt, st)).
    { unfold deleteTask. simpl. unfold delete.
      rewrite delete_id by done. by rewrite stores_eta, set_db_id. }
    assert (Hcom : completeTask no_faults clock id st = (Resolved tt, st)).
    { unfold completeTask. simpl. unfold get. rewrite Hl. simpl.
      by rewrite stores_eta, set_db_id. }
    split; [| split; [by rewrite Hdel | split; [| by rewrite Hcom]]].
    + intros e. destruct (deleteTask_atomic e id st) as [-> | ->]; [done |].
      by rewrite Hdel.
    + intros e.
      destruct (completeTask_stores e clock id st)
        as [-> | (store' & Hh & ->)]; [done |].
      rewrite Hl in Hh. simpl in Hh. injection Hh as <-.
      by rewrite stores_eta, set_db_id.
  - intros Hl Hno.
    assert (Hdel : deletePet no_faults id st = (Resolved tt, st)).
    { rewrite deletePet_no_faults. rewrite delete_id by done.
      rewrite map_filter_id; [by rewrite stores_eta, set_db_id |].
      intros key task Hkey. simpl. by eapply Hno. }
    split; [| by rewrite Hdel].
    intros e. destruct (deletePet_atomic e id st) as [-> | ->]; [done |].
    by rewrite Hdel.
Qed.

End Completion.

(** ** Date strings *)

Section DateStrings.
Import JS JSDate.

Lemma append_String c s r : String c s +:+ r = String c (s +:+ r).
Proof. reflexivity. Qed.

Lemma append_nil_l s : "" +:+ s = s.
Proof. reflexivity. Qed.

(** A zero-padded decimal string reads back as its number. *)
Lemma uint_of_zeros k s d :
  NilEmpty.uint_of_string s = Some d ->
  exists d', NilEmpty.uint_of_string (zeros k +:+ s) = Some d'
             /\ N.of_uint d' = N.of_uint d.
Proof.
  intros Hs. induction k as [| k (d' & Hd' & Heq)]; [by exists d |].
  exists (Decimal.D0 d'). split; [| done].
  simpl. by rewrite Hd'.
Qed.

Lemma uint_of_padded n w :
  exists d, NilEmpty.uint_of_string (ToZeroPaddedDecimalString n w) = Some d
            /\ N.of_uint d = n.
Proof.
  unfold ToZeroPaddedDecimalString, decimal.
  destruct (uint_of_zeros (w - String.length
                                 (NilEmpty.string_of_uint (N.to_uint n)))
              _ _ (NilEmpty.usu (N.to_uint n))) as (d & Hd & Heq).
  exists d. split; [done |].
  by rewrite Heq, DecimalN.Unsigned.of_to.
Qed.

Lemma padded_inj n m w :
  ToZeroPaddedDecimalString n w = ToZeroPaddedDecimalString m w -> n = m.
Proof.
  intros Heq.
  destruct (uint_of_padded n w) as (d & Hd & <-).
  destruct (uint_of_padded m w) as (d' & Hd' & <-).
  rewrite Heq in Hd. congruence.
Qed.

(** A string of digits ends where the first space stands. *)
Lemma digits_then_space s1 s2 r1 r2 :
  is_Some (NilEmpty.uint_of_string s1) ->
  is_Some (NilEmpty.uint_of_string s2) ->
  s1 +:+ String " " r1 = s2 +:+ String " " r2 ->
  s1 = s2 /\ r1 = r2.
Proof.
  revert s2. induction s1 as [| c1 s1 IH]; intros [| c2 s2] H1 H2 Heq.
  - by injection Heq as ->.
  - simpl in Heq. injection Heq as <- _. simpl in H2.
    destruct H2 as [d Hd]. by destruct (NilEmpty.uint_of_string s2).
  - simpl in Heq. injection Heq as -> _. simpl in H1.
    destruct H1 as [d Hd]. by destruct (NilEmpty.uint_of_string s1).
  - simpl in Heq. injection Heq as -> Heq.
    simpl in H1, H2.
    destruct (NilEmpty.uint_of_string s1) eqn:E1;
      [| destruct H1 as [? ?]; done].
    destruct (NilEmpty.uint_of_string s2) eqn:E2;
      [| destruct H2 as [? ?]; done].
    destruct (IH s2) as [-> ->]; [by eexists | by eexists | done | done].
Qed.

Lemma DayName_chars wd :
  exists c1 c2 c3, DayName wd = String c1 (String c2 (String c3 "")).
Proof. unfold DayName. repeat case_match; eauto. Qed.

Lemma MonthName_chars m :
  exists c1 c2 c3, MonthName m = String c1 (String c2 (String c3 "")).
Proof. unfold MonthName. repeat case_match; eauto. Qed.

Lemma MonthName_inj m1 m2 :
  0 <= m1 <= 11 -> 0 <= m2 <= 11 -> MonthName m1 = MonthName m2 -> m1 = m2.
Proof.
  intros H1 H2.
  assert (Hc1 : m1 = 0 \/ m1 = 1 \/ m1 = 2 \/ m1 = 3 \/ m1 = 4 \/ m1 = 5
                \/ m1 = 6 \/ m1 = 7 \/ m1 = 8 \/ m1 = 9 \/ m1 = 10 \/ m1 = 11)
    by lia.
  assert (Hc2 : m2 = 0 \/ m2 = 1 \/ m2 = 2 \/ m2 = 3 \/ m2 = 4 \/ m2 = 5
                \/ m2 = 6 \/ m2 = 7 \/ m2 = 8 \/ m2 = 9 \/ m2 = 10 \/ m2 = 11)
    by lia.
  clear H1 H2.
  repeat destruct Hc1 as [-> | Hc1]; try subst m1;
    repeat destruct Hc2 as [-> | Hc2]; try subst m2;
    simpl; intros Heq; first [reflexivity | discriminate Heq].
Qed.

Lemma signed_year_inj y1 y2 :
  (if 0 <=? y1 then "" else "-")
    +:+ ToZeroPaddedDecimalString (Z.to_N (Z.abs y1)) 4
  = (if 0 <=? y2 then "" else "-")
    +:+ ToZeroPaddedDecimalString (Z.to_N (Z.abs y2)) 4 ->
  y1 = y2.
Proof.
  destruct (uint_of_padded (Z.to_N (Z.abs y1)) 4) as (d1 & Hd1 & _).
  destruct (uint_of_padded (Z.to_N (Z.abs y2)) 4) as (d2 & Hd2 & _).
  set (p1 := ToZeroPaddedDecimalString (Z.to_N (Z.abs y1)) 4) in *.
  set (p2 := ToZeroPaddedDecimalString (Z.to_N (Z.abs y2)) 4) in *.
  destruct (Z.leb_spec 0 y1), (Z.leb_spec 0 y2); intros Heq.
  - change (p1 = p2) in Heq. apply padded_inj in Heq. lia.
  - change (p1 = String "-" p2) in Heq. rewrite Heq in Hd1. simpl in Hd1.
    by destruct (NilEmpty.uint_of_string p2).
  - change (String "-" p1 = p2) in Heq. rewrite <- Heq in Hd2. simpl in Hd2.
    by destruct (NilEmpty.uint_of_string p1).
  - change (String "-" p1 = String "-" p2) in Heq.
    injection Heq as Heq. apply padded_inj in Heq. lia.
Qed.

(** Two local times print the same date string exactly when they lie on
    the same day. *)
Lemma DateString_same_day a b : DateString a = DateString b <-> Day a = Day b.
Proof.
  split.
  - unfold DateString. intros Heq.
    destruct (DayName_chars (WeekDay a)) as (a1 & a2 & a3 & Hwa).
    destruct (DayName_chars (WeekDay b)) as (b1 & b2 & b3 & Hwb).
    destruct (MonthName_chars (MonthFromTime a)) as (m1 & m2 & m3 & Hma).
    destruct (MonthName_chars (MonthFromTime b)) as (n1 & n2 & n3 & Hmb).
    rewrite Hwa, Hwb, Hma, Hmb in Heq.
    rewrite !append_String, !append_nil_l in Heq.
    injection Heq as _ _ _ -> -> -> Heq.
    assert (Hmonth : MonthFromTime a = MonthFromTime b).
    { apply MonthName_inj; try apply MonthFromTime_range. congruence. }
    apply digits_then_space in Heq as [Hdate Hyear].
    + apply padded_inj in Hdate. apply signed_year_inj in Hyear.
      pose proof (DateFromTime_range a). pose proof (DateFromTime_range b).
      rewrite (Day_components a), (Day_components b).
      unfold InLeapYear. rewrite Hyear, Hmonth.
      assert (DateFromTime a = DateFromTime b) as -> by lia. done.
    + destruct (uint_of_padded (Z.to_N (DateFromTime a)) 2) as (? & -> & _).
      by eexists.
    + destruct (uint_of_padded (Z.to_N (DateFromTime b)) 2) as (? & -> & _).
      by eexists.
  - intros Heq.
    unfold DateString, WeekDay, DateFromTime, MonthFromTime, InLeapYear,
      DayWithinYear, YearFromTime.
    by rewrite Heq.
Qed.

End DateStrings.

(** ** Reading ISO strings back *)

Section ReadBack.
Import JS JSDate.

Lemma length_string_of_uint d :
  String.length (NilEmpty.string_of_uint d) = Decimal.nb_digits d.
Proof. induction d; simpl; congruence. Qed.

Lemma usize_nb_digits d : Unsigned.usize d = N.of_nat (Decimal.nb_digits d).
Proof. induction d; simpl Unsigned.usize; simpl Decimal.nb_digits; lia. Qed.

(** A numeral with no leading zero is at least the power of ten of its
    other digits. *)
Lemma of_uint_lower d :
  d <> Decimal.Nil -> Decimal.nzhead d = d ->
  exists d', Decimal.nb_digits d = S (Decimal.nb_digits d')
             /\ (10 ^ Unsigned.usize d' <= N.of_uint d)%N.
Proof.
  intros Hnil Hnz.
  destruct d as [| d' | d' | d' | d' | d' | d' | d' | d' | d' | d'];
    [done | by apply nzhead_nonzero in Hnz | ..];
    exists d'; (split; [done |]);
    unfold N.of_uint; rewrite Unsigned.of_uint_alt;
    unfold Decimal.rev; simpl Decimal.revapp;
    rewrite Unsigned.of_lu_revapp; simpl Unsigned.of_lu; lia.
Qed.

Lemma nb_digits_to_uint n w :
  (0 < w)%nat -> (n < 10 ^ N.of_nat w)%N ->
  (Decimal.nb_digits (N.to_uint n) <= w)%nat.
Proof.
  intros Hw Hn.
  pose proof (DecimalN.Unsigned.of_to n) as Hof.
  pose proof (DecimalN.Unsigned.to_of (N.to_uint n)) as Hto.
  rewrite Hof in Hto. symmetry in Hto.
  set (d := N.to_uint n) in *.
  unfold Decimal.unorm in Hto.
  destruct (Decimal.nzhead d) eqn:Hnz;
    try (rewrite <- Hto; simpl; lia);
    (destruct (of_uint_lower d) as (d' & Hlen & Hlow);
     [ by rewrite <- Hto | by rewrite Hnz | ]);
    rewrite Hlen; rewrite Hof in Hlow;
    assert (Unsigned.usize d' < N.of_nat w)%N
      by (apply (N.pow_lt_mono_r_iff 10); lia);
    rewrite usize_nb_digits in *; lia.
Qed.

Lemma length_zeros k : String.length (zeros k) = k.
Proof. induction k as [| k IH]; simpl; [done | by rewrite IH]. Qed.

Lemma length_append s r :
  String.length (s +:+ r) = (String.length s + String.length r)%nat.
Proof.
  induction s as [| c s IH]; [done |].
  change (S (String.length (s +:+ r))
          = S (String.length s + String.length r)).
  by rewrite IH.
Qed.

(** A number below [10^w] fills exactly [w] places. *)
Lemma length_padded n w :
  (0 < w)%nat -> (n < 10 ^ N.of_nat w)%N ->
  String.length (ToZeroPaddedDecimalString n w) = w.
Proof.
  intros Hw Hn. unfold ToZeroPaddedDecimalString, decimal.
  rewrite length_append, length_zeros, length_string_of_uint.
  pose proof (nb_digits_to_uint n w Hw Hn). lia.
Qed.

(** A padded field has its width and reads back as its number. *)
Lemma pad_reads z w :
  (0 < w)%nat -> 0 <= z < 10 ^ Z.of_nat w ->
  String.length (pad z w) = w
  /\ Z.of_uint <$> NilEmpty.uint_of_string (pad z w) = Some z.
Proof.
  intros Hw Hz. unfold pad. split.
  - apply length_padded; [done |].
    apply N2Z.inj_lt. rewrite Z2N.id by lia.
    rewrite N2Z.inj_pow, nat_N_Z. simpl. lia.
  - destruct (uint_of_padded (Z.to_N z) w) as (d & -> & Hd). simpl.
    f_equal. unfold Z.of_uint. unfold N.of_uint in Hd. rewrite Hd. lia.
Qed.

Lemma string_length_2 s :
  String.length s = 2%nat -> exists a b, s = String a (String b "").
Proof. destruct s as [| a [| b [| c s]]]; try done. eauto. Qed.

Lemma string_length_3 s :
  String.length s = 3%nat ->
  exists a b c, s = String a (String b (String c "")).
Proof. destruct s as [| a [| b [| c [| e s]]]]; try done. eauto. Qed.

Lemma string_length_4 s :
  String.length s = 4%nat ->
  exists a b c e, s = String a (String b (String c (String e ""))).
Proof. destruct s as [| a [| b [| c [| e [| f s]]]]]; try done. eauto 6. Qed.

Lemma string_length_6 s :
  String.length s = 6%nat ->
  exists a b c e f g,
    s = String a (String b (String c (String e (String f (String g ""))))).
Proof.
  destruct s as [| a [| b [| c [| e [| f [| g [| h s]]]]]]]; try done.
  eauto 8.
Qed.

Lemma time_fields t :
  0 <= HourFromTime t < 24 /\ 0 <= MinFromTime t < 60
  /\ 0 <= SecFromTime t < 60 /\ 0 <= msFromTime t < 1000
  /\ MakeTime (HourFromTime t) (MinFromTime t) (SecFromTime t) (msFromTime t)
     = TimeWithinDay t.
Proof.
  unfold HourFromTime, MinFromTime, SecFromTime, msFromTime, MakeTime,
    TimeWithinDay, msPerHour, msPerMinute, msPerSecond, msPerDay, HoursPerDay,
    MinutesPerHour, SecondsPerMinute.
  Z.to_euclidean_division_equations. lia.
Qed.

Lemma DateFromTime_in_month t :
  DateFromTime t <= DaysInMonth (MonthFromTime t) (InLeapYear t).
Proof.
  pose proof (DayWithinYear_range t) as Hd.
  unfold DateFromTime, MonthFromTime.
  destruct (InLeapYear_cases t) as [[-> Hy] | [-> Hy]]; rewrite Hy in Hd;
    repeat match goal with
           | |- context [?a <? ?b] => destruct (Z.ltb_spec a b)
           end; simpl; lia.
Qed.

(** The years of the time values: from -271821 to 275760. *)
Lemma YearFromTime_bounds t :
  Z.abs t <= 8640000000000000 -> -271821 <= YearFromTime t <= 275760.
Proof.
  intros Ht. unfold YearFromTime.
  pose proof (YearFromDay_spec (Day t)) as [Hlo Hhi].
  assert (-100000000 <= Day t <= 100000000)
    by (unfold Day, msPerDay; Z.to_euclidean_division_equations; lia).
  split.
  - destruct (Z.le_gt_cases (-271821) (YearFromDay (Day t))); [done |].
    pose proof (DayFromYear_mono (YearFromDay (Day t) + 1) (-271821)).
    assert (DayFromYear (-271821) < -100000000) by reflexivity. lia.
  - destruct (Z.le_gt_cases (YearFromDay (Day t)) 275760); [done |].
    pose proof (DayFromYear_mono 275761 (YearFromDay (Day t))).
    assert (100000000 < DayFromYear 275761) by reflexivity. lia.
Qed.

(** The fields of a time value make the time value. *)
Lemma fromFields_components t sign y :
  sign * y = YearFromTime t ->
  sign = 1 \/ (sign = -1 /\ y <> 0) ->
  fromFields sign y (MonthFromTime t + 1) (DateFromTime t) (HourFromTime t)
    (MinFromTime t) (SecFromTime t) (msFromTime t)
  = Some t.
Proof.
  intros Hyear Hsign.
  pose proof (MonthFromTime_range t) as HM.
  pose proof (DateFromTime_range t) as HD.
  pose proof (DateFromTime_in_month t) as HDm.
  destruct (time_fields t) as (Hh & Hmi & Hs & Hms & Htime).
  unfold fromFields. rewrite Hyear. fold (InLeapYear t).
  replace (MonthFromTime t + 1 - 1) with (MonthFromTime t) by lia.
  pose proof (MakeDay_shift t 0) as Hday. rewrite !Z.add_0_r in Hday.
  rewrite Hday, Htime, <- Day_TimeWithinDay.
  assert (G1 : (1 <=? MonthFromTime t + 1) && (MonthFromTime t + 1 <=? 12)
               = true) by (apply andb_true_iff; split; apply Z.leb_le; lia).
  assert (G2 : (1 <=? DateFromTime t)
               && (DateFromTime t
                   <=? DaysInMonth (MonthFromTime t) (InLeapYear t)) = true)
    by (apply andb_true_iff; split; apply Z.leb_le; lia).
  assert (G3 : (HourFromTime t <=? 23) && (MinFromTime t <=? 59)
               && (SecFromTime t <=? 59) = true)
    by (rewrite !andb_true_iff; repeat split; apply Z.leb_le; lia).
  assert (G4 : negb ((sign =? -1) && (y =? 0)) = true).
  { apply negb_true_iff, andb_false_iff.
    destruct Hsign as [-> | [-> Hne]]; [by left |].
    right. by apply Z.eqb_neq. }
  by rewrite G1, G2, G3, G4.
Qed.

Lemma digit_not_sign c d d' :
  uint_of_char c (Some d) = Some d' -> c <> "+"%char /\ c <> "-"%char.
Proof.
  intros Hc. apply uint_of_char_spec in Hc.
  repeat destruct Hc as [[-> _] | Hc]; try destruct Hc as [-> _]; done.
Qed.

Lemma parseISO_unsigned c rest :
  c <> "+"%char -> c <> "-"%char ->
  parseISO (String c rest) =
  match parseFields (String c rest) 0 4 1 with
  | Some tv => TimeClip (Num tv)
  | None => NaN
  end.
Proof.
  intros Hp Hm. unfold parseISO.
  destruct c as [[|] [|] [|] [|] [|] [|] [|] [|]]; try reflexivity; done.
Qed.

Lemma TimeClip_valid t :
  Z.abs t <= 8640000000000000 -> TimeClip (Num t) = Num t.
Proof.
  intros Ht. unfold TimeClip.
  by destruct (Z.leb_spec (Z.abs t) 8640000000000000); [| lia].
Qed.

(** [parseISO] reads back what [toISOString] writes, for every time
    value. *)
Theorem parseISO_toISOString t s :
  Z.abs t <= 8640000000000000 ->
  toISOString (Num t) = Some s -> parseISO s = Num t.
Proof.
  intros Ht [= <-].
  pose proof (MonthFromTime_range t) as HM.
  pose proof (DateFromTime_range t) as HD.
  pose proof (YearFromTime_bounds t Ht) as HY.
  destruct (time_fields t) as (Hh & Hmi & Hs & Hms & _).
  destruct (pad_reads (MonthFromTime t + 1) 2) as [LM RM]; [lia | simpl; lia |].
  destruct (pad_reads (DateFromTime t) 2) as [LD RD]; [lia | simpl; lia |].
  destruct (pad_reads (HourFromTime t) 2) as [Lh Rh]; [lia | simpl; lia |].
  destruct (pad_reads (MinFromTime t) 2) as [Lmi Rmi]; [lia | simpl; lia |].
  destruct (pad_reads (SecFromTime t) 2) as [Ls Rs]; [lia | simpl; lia |].
  destruct (pad_reads (msFromTime t) 3) as [Lms Rms]; [lia | simpl; lia |].
  apply string_length_2 in LM as (M1 & M2 & EM).
  apply string_length_2 in LD as (D1 & D2 & ED).
  apply string_length_2 in Lh as (h1 & h2 & Eh).
  apply string_length_2 in Lmi as (m1 & m2 & Emi).
  apply string_length_2 in Ls as (s1 & s2 & Es).
  apply string_length_3 in Lms as (f1 & f2 & f3 & Ems).
  rewrite EM in *. rewrite ED in *. rewrite Eh in *.
  rewrite Emi in *. rewrite Es in *. rewrite Ems in *.
  unfold YearString.
  destruct (Z.leb_spec 0 (YearFromTime t)) as [Hpos | Hneg];
    [destruct (Z.leb_spec (YearFromTime t) 9999) as [Hsmall | Hbig] |];
    cbn [andb].
  - destruct (pad_reads (YearFromTime t) 4) as [Ly Ry]; [lia | simpl; lia |].
    apply string_length_4 in Ly as (y1 & y2 & y3 & y4 & Ey).
    rewrite Ey in *.
    repeat (rewrite !append_String || rewrite !append_nil_l).
    assert (Hdigit : y1 <> "+"%char /\ y1 <> "-"%char).
    { simpl in Ry.
      destruct (uint_of_char y2 _) as [d |] eqn:E;
        [| by destruct y1 as [[|] [|] [|] [|] [|] [|] [|] [|]]].
      destruct (uint_of_char y1 (Some d)) as [d' |] eqn:E'; [| done].
      by apply digit_not_sign in E'. }
    rewrite parseISO_unsigned by tauto.
    unfold parseFields, field, literal.
    cbn [substring Nat.add Nat.sub String.length].
    rewrite !bool_decide_eq_true_2 by done.
    rewrite Ry, RM, RD, Rh, Rmi, Rs, Rms.
    cbn [mbind option_bind guard].
    rewrite fromFields_components by (auto; lia).
    by apply TimeClip_valid.
  - destruct (pad_reads (Z.abs (YearFromTime t)) 6) as [Ly Ry];
      [lia | simpl; lia |].
    apply string_length_6 in Ly as (y1 & y2 & y3 & y4 & y5 & y6 & Ey).
    rewrite Ey in *.
    repeat (rewrite !append_String || rewrite !append_nil_l).
    unfold parseISO, parseFields, field, literal.
    cbn [substring Nat.add Nat.sub String.length].
    rewrite !bool_decide_eq_true_2 by done.
    rewrite Ry, RM, RD, Rh, Rmi, Rs, Rms.
    cbn [mbind option_bind guard].
    rewrite fromFields_components by (auto; lia).
    by apply TimeClip_valid.
  - destruct (pad_reads (Z.abs (YearFromTime t)) 6) as [Ly Ry];
      [lia | simpl; lia |].
    apply string_length_6 in Ly as (y1 & y2 & y3 & y4 & y5 & y6 & Ey).
    rewrite Ey in *.
    repeat (rewrite !append_String || rewrite !append_nil_l).
    unfold parseISO, parseFields, field, literal.
    cbn [substring Nat.add Nat.sub String.length].
    rewrite !bool_decide_eq_true_2 by done.
    rewrite Ry, RM, RD, Rh, Rmi, Rs, Rms.
    cbn [mbind option_bind guard].
    rewrite fromFields_components by (try right; lia).
    by apply TimeClip_valid.
Qed.

End ReadBack.

(** ** The dashboard *)

Section Dashboard.
Import JS JSDate StorageService DashboardView.
Context `{host : Platform}.

Lemma insert_Permutation {A : Type} (cmp : A -> A -> number) x l :
  insert cmp x l ≡ₚ x :: l.
Proof.
  induction l as [| y l IH]; simpl; [done |].
  case_match; [| done]. rewrite IH. apply Permutation_swap.
Qed.

Lemma sort_Permutation {A : Type} (cmp : A -> A -> number) l :
  sort cmp l ≡ₚ l.
Proof.
  induction l as [| x l IH]; simpl; [done |].
  unfold sort in IH. by rewrite insert_Permutation, IH.
Qed.

Lemma SortCompare_valid a b :
  Spec.valid a -> Spec.valid b ->
  exists x y, Spec.dueTime a = Num x /\ Spec.dueTime b = Num y
              /\ SortCompare byNextDueDate a b = x - y.
Proof.
  unfold Spec.valid, SortCompare, byNextDueDate, getTime, Spec.dueTime.
  destruct (ofString (Task.nextDueDate a)) as [x |]; [| done].
  destruct (ofString (Task.nextDueDate b)) as [y |]; [| done].
  intros _ _. by exists x, y.
Qed.

Lemma insert_ascending x l :
  Spec.valid x -> Forall Spec.valid l -> Spec.ascending l ->
  Spec.ascending (insert byNextDueDate x l).
Proof.
  intros Hx Hl Hs. induction Hs as [| y l Hs IH Hy]; simpl.
  - repeat constructor.
  - apply Forall_cons in Hl as [Hvy Hl].
    destruct (SortCompare_valid x y Hx Hvy) as (tx & ty & Htx & Hty & ->).
    destruct (Z.ltb_spec 0 (tx - ty)).
    + constructor; [by apply IH |].
      rewrite insert_Permutation. constructor; [| done].
      rewrite Htx, Hty. simpl. lia.
    + constructor; [by constructor |].
      constructor; [rewrite Htx, Hty; simpl; lia |].
      eapply Forall_impl; [exact Hy |]. intros z. simpl.
      rewrite Htx, Hty. destruct (Spec.dueTime z); simpl; lia.
Qed.

Lemma sort_ascending l :
  Forall Spec.valid l -> Spec.ascending (sort byNextDueDate l).
Proof.
  induction l as [| x l IH]; intros Hl; simpl; [constructor |].
  apply Forall_cons in Hl as [Hx Hl].
  apply insert_ascending; [done | | by apply IH].
  fold (sort byNextDueDate l). by rewrite sort_Permutation.
Qed.

Lemma Invalid_Date_DateString t : "Invalid Date" <> DateString t.
Proof.
  unfold DateString.
  destruct (DayName_chars (WeekDay t)) as (c1 & c2 & c3 & ->).
  rewrite !append_String, append_nil_l. discriminate.
Qed.

(** The predicate of the 'today' filter is the calendar-date test. *)
Lemma shown_today_due clock task :
  Spec.calendar_monotone ->
  shown today clock task = true <-> Spec.due clock task.
Proof.
  intros Hmono. unfold shown, Spec.due, Spec.dueTime.
  destruct (ofString (Task.nextDueDate task)) as [d |]; simpl.
  - rewrite orb_true_iff, Z.leb_le, bool_decide_eq_true, DateString_same_day.
    fold (Spec.calendarDate d) (Spec.calendarDate clock). split.
    + intros [Hle | Heq]; [by apply Hmono | lia].
    + intros Hle. destruct (Z.le_gt_cases d clock) as [| Hgt]; [by left |].
      right. pose proof (Hmono clock d). lia.
  - split; [| done]. intros Hs. apply bool_decide_eq_true in Hs.
    by apply Invalid_Date_DateString in Hs.
Qed.

Lemma elem_of_filter_from f clock i l task :
  task ∈ filter_from f clock i l
  <-> exists j, l !! j = Some task /\ shown f (clock (i + j)%nat) task = true.
Proof.
  revert i. induction l as [| x l IH]; intros i; simpl.
  - split; [by intros ?%elem_of_nil | by intros (j & ? & _)].
  - destruct (shown f (clock i) x) eqn:Hx.
    + rewrite elem_of_cons, IH. split.
      * intros [-> | (j & Hj & Hs)].
        -- exists 0%nat. by rewrite Nat.add_0_r.
        -- exists (S j). by rewrite Nat.add_succ_r.
      * intros ([| j] & Hj & Hs); simpl in Hj.
        -- left. congruence.
        -- right. exists j. by rewrite Nat.add_succ_r in Hs.
    + rewrite IH. split.
      * intros (j & Hj & Hs). exists (S j). by rewrite Nat.add_succ_r.
      * intros ([| j] & Hj & Hs); simpl in Hj.
        -- rewrite Nat.add_0_r in Hs. congruence.
        -- exists j. by rewrite Nat.add_succ_r in Hs.
Qed.

Lemma filter_from_all clock i l : filter_from all clock i l = l.
Proof. revert i. induction l as [| x l IH]; intros i; simpl; by f_equal. Qed.

(** C6. Where local calendar dates do not run backwards, the 'today'
    filter shows exactly the tasks whose [nextDueDate], cut to its local
    calendar date, is on or before the calendar date of the clock: a task
    due the day before or on the day is shown, a task due the day after is
    not.  The 'all' filter shows every task loaded, and [loadData] loads
    the tasks read from the store in ascending order of [nextDueDate]. *)
Theorem due_today_filter :
  Spec.calendar_monotone ->
  (forall clock v task,
     task ∈ filteredTasks clock (setFilter today v)
     <-> exists i, tasks v !! i = Some task /\ Spec.due (clock i) task)
  /\ (forall clock task d,
        Spec.dueTime task = Num d ->
        (Spec.calendarDate d = Spec.calendarDate clock - 1 ->
         shown today clock task = true)
        /\ (Spec.calendarDate d = Spec.calendarDate clock ->
            shown today clock task = true)
        /\ (Spec.calendarDate d = Spec.calendarDate clock + 1 ->
            shown today clock task = false))
  /\ (forall clock eTasks ePets st v v' fetched,
        getTasks eTasks st = Resolved fetched ->
        Forall Spec.valid fetched ->
        loadData eTasks ePets st v = (Resolved tt, v') ->
        filteredTasks clock (setFilter all v') = tasks v'
        /\ tasks v' ≡ₚ fetched
        /\ Spec.ascending (tasks v')).
Proof.
  intros Hmono. split; [| split].
  - intros clock v task. unfold filteredTasks. simpl.
    rewrite elem_of_filter_from. simpl.
    split; intros (i & Hi & Hs); exists i; (split; [done |]);
      by apply shown_today_due.
  - intros clock task d Hd.
    pose proof (shown_today_due clock task Hmono) as Hiff.
    unfold Spec.due in Hiff. rewrite Hd in Hiff.
    split; [| split]; intros Hcal.
    + apply Hiff. lia.
    + apply Hiff. lia.
    + destruct (shown today clock task); [| done].
      assert (Spec.calendarDate d <= Spec.calendarDate clock)
        by (by apply Hiff). lia.
  - intros clock eTasks ePets st v v' fetched Hget Hvalid.
    unfold loadData. rewrite Hget.
    destruct (getPets ePets st) as [fetchedPets | r |]; simpl; [| done..].
    intros [= <-]. simpl. split; [| split].
    + unfold filteredTasks. simpl. apply filter_from_all.
    + apply sort_Permutation.
    + by apply sort_ascending.
Qed.

End Dashboard.

(** ** Creating a task *)

Section Creation.
Import JS JSDate StorageService PetsView.

(** The record built by [handleAddTask]: due at the time of creation,
    never done, and with the frequency of the form, whatever it is. *)
Lemma newTask_fields clockId clockDue v task :
  newTask clockId clockDue v = Some task ->
  Some (Task.nextDueDate task) = toISOString (Num clockDue)
  /\ Task.lastDoneDate task = None
  /\ Task.frequencyDays task = newTaskFreq v
  /\ Task.id task = toString clockId
  /\ showAddTask v = Some (Task.petId task).
Proof.
  unfold newTask, truthy. simpl.
  destruct (decide (newTaskTitle v = "")); [done |]. simpl.
  destruct (showAddTask v) as [pet |]; [| done].
  destruct (decide (pet = "")); [done |]. simpl.
  intros [= <-]. simpl. done.
Qed.

(** The task built is the task stored. *)
Lemma handleAddTask_saves clockId clockDue st v task :
  newTask clockId clockDue v = Some task ->
  exists v',
    handleAddTask clockId clockDue no_faults no_faults no_faults st v
    = (Resolved tt, snd (saveTask no_faults task st), v')
    /\ StorageService.tasks (db (snd (saveTask no_faults task st)))
         !! Task.id task
       = Some task.
Proof.
  intros Hnew. unfold handleAddTask. rewrite Hnew. simpl.
  eexists. split; [reflexivity |]. unfold IDB.put. apply lookup_insert_eq.
Qed.

(** The frequency field takes any integer, and no number at all. *)
Lemma onChangeFreq_unchecked v :
  newTaskFreq (onChangeFreq "0" v) = Num 0
  /\ newTaskFreq (onChangeFreq "-5" v) = Num (-5)
  /\ newTaskFreq (onChangeFreq "" v) = NaN.
Proof. done. Qed.

End Creation.

(** C8, on the code: with 0 typed into the frequency field of the form of
    a pet, [handleAddTask] stores a task that is due at the time of its
    creation and was never done, and whose [frequencyDays] is 0: nothing
    on the way holds the frequency to 1 or more. *)
Theorem handleAddTask_frequency_zero :
  let form :=
    PetsView.View [] [] false (Some "p1") "Pill" PILL (JS.Num 1) in
  let typed := PetsView.onChangeFreq "0" form in
  exists task st' v',
    PetsView.handleAddTask 1706659200123 1706659200124
      StorageService.no_faults StorageService.no_faults
      StorageService.no_faults Examples.home typed
    = (JS.Resolved tt, st', v')
    /\ StorageService.tasks (StorageService.db st') !! "1706659200123"
       = Some task
    /\ Task.frequencyDays task = JS.Num 0
    /\ Task.lastDoneDate task = None
    /\ Task.nextDueDate task = "2024-01-31T00:00:00.124Z".
Proof.
  intros form typed.
  destruct (PetsView.newTask 1706659200123 1706659200124
              typed) as [task |] eqn:Hnew; [| by vm_compute in Hnew].
  destruct (handleAddTask_saves _ _ Examples.home _ _ Hnew)
    as (v' & Hrun & Hstored).
  exists task, (snd (StorageService.saveTask StorageService.no_faults task
                       Examples.home)), v'.
  split; [exact Hrun |].
  vm_compute in Hnew. injection Hnew as <-.
  split; [exact Hstored | done].
Qed.

(** ** The assistant *)

Section Assistant.
Import JS GeminiService.

(** C9. [askAssistant] never rejects; it resolves to a string whenever
    the awaited call settles; and with no API key, a call that rejects, or
    a response with no text or an empty text, the string is one of the
    three fixed replies. *)
Theorem askAssistant_fallback {E : Type} (apiKey : string)
    (generateContent : string -> outcome E response) (message : string) :
  (forall e, askAssistant apiKey generateContent message <> Rejected e)
  /\ (generateContent message <> Pending ->
      exists s, askAssistant apiKey generateContent message = Resolved s)
  /\ (apiKey = ""
      \/ (exists e, generateContent message = Rejected e)
      \/ generateContent message = Resolved None
      \/ generateContent message = Resolved (Some "") ->
      exists s, s ∈ Spec.fallbacks
                /\ askAssistant apiKey generateContent message = Resolved s).
Proof.
  unfold askAssistant, Spec.fallbacks.
  destruct (decide (apiKey = "")) as [Hkey | Hkey].
  { split; [done | split]; intros _; eexists; [done |].
    split; [| done]. set_solver. }
  destruct (generateContent message) as [[s |] | e |] eqn:Hgen.
  - destruct (decide (s = "")) as [-> | Hs].
    + split; [done | split]; intros _; eexists; [done |].
      split; [| done]. set_solver.
    + split; [done | split]; [by eexists |].
      intros [? | [[e He] | [? | ?]]]; simplify_eq.
  - split; [done | split]; intros _; eexists; [done |].
    split; [| done]. set_solver.
  - split; [done | split]; intros _; eexists; [done |].
    split; [| done]. set_solver.
  - split; [done | split]; [done |].
    intros [? | [[e He] | [? | ?]]]; simplify_eq.
Qed.

(** A text that is not empty is passed on as it is. *)
Lemma askAssistant_text {E : Type} apiKey
    (generateContent : string -> outcome E response) message s :
  apiKey <> "" -> s <> "" ->
  generateContent message = Resolved (Some s) ->
  askAssistant apiKey generateContent message = Resolved s.
Proof.
  intros Hkey Hs Hgen. unfold askAssistant. rewrite Hgen.
  by rewrite !decide_False.
Qed.

End Assistant.

(** ** Dates written and read back *)

Section Written.
Import JS JSDate StorageService.
Context `{host : Platform}.
Hypothesis Hreads : Spec.reads_ISO.

Lemma TimeClip_Num n r : TimeClip n = Num r -> Z.abs r <= 8640000000000000.
Proof.
  destruct n as [t |]; simpl; [| done].
  destruct (Z.leb_spec (Z.abs t) 8640000000000000); [| done].
  by intros [= <-].
Qed.

(** After [completeTask], the dates of the record read as the time of
    completion and as that time plus [F] days. *)
Lemma completeTask_reads_back T F r id task st :
  Z.abs T <= 8640000000000000 ->
  Spec.keyed st ->
  tasks (db st) !! id = Some task ->
  Task.frequencyDays task = Num F ->
  Spec.plusDays T F = Num r ->
  exists task',
    tasks (db (snd (completeTask no_faults T id st))) !! id = Some task'
    /\ ofString <$> Task.lastDoneDate task' = Some (Num T)
    /\ Spec.dueTime task' = Num r.
Proof.
  intros HT [_ Hkeyed] Hl HF Hr.
  destruct (complete_handler_Some T task (tasks (db st)) F r HF Hr)
    as (last & next & Hlast & Hnext & Hh).
  rewrite (completeTask_no_faults T id st _ ltac:(by rewrite Hl)).
  pose proof (Hkeyed _ _ Hl) as Hid. simpl in Hid. rewrite Hid.
  eexists. split; [apply lookup_insert_eq |]. simpl.
  unfold Spec.dueTime, ofString. simpl. split.
  - f_equal. by apply Hreads.
  - apply Hreads; [| done]. unfold Spec.plusDays in Hr.
    by apply TimeClip_Num in Hr.
Qed.

(** A task is due from the moment of its creation. *)
Lemma newTask_due_at_once clockId clockDue v task clock :
  Z.abs clockDue <= 8640000000000000 ->
  PetsView.newTask clockId clockDue v = Some task ->
  clockDue <= clock ->
  DashboardView.shown DashboardView.today clock task = true.
Proof.
  intros Hdue Hnew Hle.
  apply newTask_fields in Hnew as (Hnext & _).
  unfold DashboardView.shown, ofString.
  rewrite (Hreads clockDue (Task.nextDueDate task)) by done.
  apply orb_true_iff. left. simpl. by apply Z.leb_le.
Qed.

End Written.

(** ** The properties at work *)

Section AtWork.
Import JS JSDate StorageService.

Lemma home_keyed : Spec.keyed Examples.home.
Proof.
  split; simpl;
    repeat (apply map_Forall_insert_2; [reflexivity |]);
    apply map_Forall_empty.
Qed.

Lemma utc_calendar_monotone : Spec.calendar_monotone (host := Examples.utc).
Proof.
  intros a b Hab. unfold Spec.calendarDate, LocalTime, Day, msPerDay. simpl.
  apply Z.div_le_mono; lia.
Qed.

Lemma utc_reads_ISO : Spec.reads_ISO (host := Examples.utc).
Proof. intros t s. apply parseISO_toISOString. Qed.

Lemma cet2024_reads_ISO : Spec.reads_ISO (host := Examples.cet2024).
Proof. intros t s. apply parseISO_toISOString. Qed.

(** A pet, a task every 30 days created at [t0], completed five days
    later: the task is then next due 35 days after [t0]. *)
Example create_then_complete :
  let t0 := 1706659200123 in
  let form := PetsView.View [] [] false (Some "p1") "Pill" PILL (Num 30) in
  let empty := State (Stores ∅ ∅) ∅ in
  let '(_, st1, _) :=
    PetsView.handleAddTask t0 t0 no_faults no_faults no_faults empty form in
  let st2 :=
    snd (completeTask (host := Examples.utc) no_faults (t0 + 5 * msPerDay)
           (toString t0) st1) in
  getTasks no_faults st1
  = Resolved [ Task.mk "1706659200123" "p1" PILL "Pill" (Num 30) None
                 "2024-01-31T00:00:00.123Z" ]
  /\ getTasks no_faults st2
     = Resolved [ Task.mk "1706659200123" "p1" PILL "Pill" (Num 30)
                    (Some "2024-02-05T00:00:00.123Z")
                    "2024-03-06T00:00:00.123Z" ]
  /\ parseISO "2024-03-06T00:00:00.123Z" = Num (t0 + 35 * msPerDay).
Proof. by vm_compute. Qed.

(** Deleting the first pet of the example store. *)
Lemma deletePet_cascade_witness :
  Spec.keyed Examples.home
  /\ ((exists st', deletePet no_faults "p1" Examples.home = (Resolved tt, st'))
      /\ (forall e st', deletePet e "p1" Examples.home = (Resolved tt, st') ->
            (forall e' l, getPets e' st' = Resolved l ->
               forall pet, pet ∈ l -> Pet.id pet <> "p1")
            /\ (forall e' l, getTasks e' st' = Resolved l ->
                  forall task, task ∈ l -> Task.petId task <> "p1"))
      /\ (forall e, snd (deletePet e "p1" Examples.home) = Examples.home
                    \/ snd (deletePet e "p1" Examples.home)
                       = snd (deletePet no_faults "p1" Examples.home))).
Proof.
  split; [exact home_keyed |].
  apply (deletePet_cascade "p1" Examples.home).
  split; simpl;
    repeat (apply map_Forall_insert_2; [reflexivity |]);
    apply map_Forall_empty.
Defined.

Example deletePet_home :
  let st' := snd (deletePet no_faults "p1" Examples.home) in
  getPets no_faults st' = Resolved [Examples.tom]
  /\ getTasks no_faults st' = Resolved [Examples.ears].
Proof. by vm_compute. Qed.

(** Completing the pill task, due every 30 days, on 31 January 2024. *)
Lemma completeTask_schedule_witness :
  exists last next,
    toISOString (Num 1706659200123) = Some last
    /\ toISOString (Num 1709251200123) = Some next
    /\ completeTask (host := Examples.utc) no_faults 1706659200123 "t1"
         Examples.home =
       (Resolved tt,
        set_db
          (Stores (pets (db Examples.home))
                  (<["t1" := Task.mk "t1" "p1" PILL "Pill" (Num 30)
                                     (Some last) next]>
                     (tasks (db Examples.home))))
          Examples.home).
Proof.
  apply (completeTask_schedule (host := Examples.utc) 1706659200123 30
           1709251200123 "t1" Examples.pill Examples.home).
  - split; simpl;
      repeat (apply map_Forall_insert_2; [reflexivity |]);
      apply map_Forall_empty.
  - reflexivity.
  - reflexivity.
  - reflexivity.
Defined.

(** From 31 January the pill is next due on 1 March, 2024 being a leap
    year. *)
Example completeTask_home :
  getTasks no_faults
    (snd (completeTask (host := Examples.utc) no_faults 1706659200123 "t1"
            Examples.home))
  = Resolved
      [ Task.mk "t1" "p1" PILL "Pill" (Num 30)
          (Some "2024-01-31T00:00:00.123Z") "2024-03-01T00:00:00.123Z";
        Examples.ears; Examples.nails ].
Proof. by vm_compute. Qed.

(** One day after 31 January is 1 February. *)
Example plusDays_end_of_month :
  toISOString (Spec.plusDays (host := Examples.utc) 1706659200123 1)
  = Some "2024-02-01T00:00:00.123Z".
Proof. by vm_compute. Qed.

(** Calendar days are not elapsed days: one day after noon of 30 March
    2024 in Central Europe is noon of 31 March, 23 hours later, the clocks
    having moved forward in the night. *)
Example plusDays_across_the_clock_change :
  toISOString (Num 1711796400000) = Some "2024-03-30T11:00:00.000Z"
  /\ toISOString (Spec.plusDays (host := Examples.cet2024) 1711796400000 1)
     = Some "2024-03-31T10:00:00.000Z"
  /\ toDateString (host := Examples.cet2024)
       (Spec.plusDays (host := Examples.cet2024) 1711796400000 1)
     = "Sun Mar 31 2024".
Proof. by vm_compute. Qed.

(** C3, as stated, fails: no pet and no task is stored under "p2" in the
    store of the orphan task, and [deletePet] on "p2" removes that task,
    whose [petId] is "p2". *)
Lemma deletePet_absent_pet_counterexample :
  pets (db Examples.orphan) !! "p2" = None
  /\ tasks (db Examples.orphan) !! "p2" = None
  /\ getTasks no_faults Examples.orphan = Resolved [Examples.ears]
  /\ getTasks no_faults (snd (deletePet no_faults "p2" Examples.orphan))
     = Resolved []
  /\ snd (deletePet no_faults "p2" Examples.orphan) <> Examples.orphan.
Proof.
  split; [done | split; [done | split; [done | split; [by vm_compute |]]]].
  intros Heq.
  assert (Hl : tasks (db (snd (deletePet no_faults "p2" Examples.orphan)))
               !! "t2" = Some Examples.ears) by (by rewrite Heq).
  by vm_compute in Hl.
Qed.

(** An id that is in no store and in no task. *)
Lemma absent_id_noop_witness :
  (tasks (db Examples.home) !! "t9" = None
   /\ pets (db Examples.home) !! "t9" = None
   /\ forall key task, tasks (db Examples.home) !! key = Some task ->
                       Task.petId task <> "t9")
  /\ deleteTask no_faults "t9" Examples.home = (Resolved tt, Examples.home)
  /\ completeTask (host := Examples.utc) no_faults 1706659200123 "t9"
       Examples.home = (Resolved tt, Examples.home)
  /\ deletePet no_faults "t9" Examples.home = (Resolved tt, Examples.home)
  /\ snd (deletePet (Env None (IDB.CommitFault "QuotaExceededError")) "t9"
            Examples.home) = Examples.home.
Proof.
  assert (Hno : forall key task,
             tasks (db Examples.home) !! key = Some task ->
             Task.petId task <> "t9").
  { intros key task Hl.
    assert (Hin : map_Forall (fun _ t => Task.petId t <> "t9")
                             (tasks (db Examples.home))).
    { simpl. repeat (apply map_Forall_insert_2; [done |]).
      apply map_Forall_empty. }
    exact (Hin key task Hl). }
  split; [split; [reflexivity | split; [reflexivity | exact Hno]] |].
  destruct (absent_id_noop (host := Examples.utc) 1706659200123 "t9"
              Examples.home) as [Htask Hpet].
  destruct (Htask eq_refl) as (Hdel & Hdel' & Hcom & Hcom').
  destruct (Hpet eq_refl Hno) as (Hpets & Hpets').
  split; [| split; [| split]].
  - rewrite (surjective_pairing (deleteTask _ _ _)).
    by rewrite Hdel', (Hdel no_faults).
  - rewrite (surjective_pairing (completeTask _ _ _ _)).
    by rewrite Hcom', (Hcom no_faults).
  - rewrite (surjective_pairing (deletePet _ _ _)).
    by rewrite Hpets', (Hpets no_faults).
  - apply Hpets.
Defined.

(** Writing a pet and a task over the ones stored under their ids. *)
Lemma save_replaces_witness :
  let pet := Pet.mk "p1" "Rex II" "collie" (Some (Num 20)) "data:," in
  let task := Task.mk "t1" "p2" OTHER "Walk" (Num 1) None
                      "2024-05-01T00:00:00.000Z" in
  Spec.keyed Examples.home
  /\ pets (db Examples.home) !! "p1" = Some Examples.rex
  /\ tasks (db Examples.home) !! "t1" = Some Examples.pill
  /\ (fst (savePet no_faults pet Examples.home) = Resolved tt
      /\ forall l,
           getPets no_faults (snd (savePet no_faults pet Examples.home))
           = Resolved l ->
           filter (fun p => Pet.id p = Pet.id pet) l = [pet])
  /\ (fst (saveTask no_faults task Examples.home) = Resolved tt
      /\ forall l,
           getTasks no_faults (snd (saveTask no_faults task Examples.home))
           = Resolved l ->
           filter (fun t => Task.id t = Task.id task) l = [task]).
Proof.
  intros pet task.
  split; [exact home_keyed | split; [reflexivity | split; [reflexivity |]]].
  apply (save_replaces pet task Examples.home).
  split; simpl;
    repeat (apply map_Forall_insert_2; [reflexivity |]);
    apply map_Forall_empty.
Defined.

Example savePet_home :
  getPets no_faults
    (snd (savePet no_faults
            (Pet.mk "p1" "Rex II" "collie" (Some (Num 20)) "data:,")
            Examples.home))
  = Resolved [ Pet.mk "p1" "Rex II" "collie" (Some (Num 20)) "data:,";
               Examples.tom ].
Proof. by vm_compute. Qed.

(** Clearing the example store, which holds a dark theme and enabled
    notifications. *)
Lemma clearAllData_resets_witness :
  getTheme Examples.home = "dark"
  /\ getNotificationSettings Examples.home = true
  /\ exists st',
       clearAllData no_faults Examples.home = (Resolved tt, st')
       /\ getPets no_faults st' = Resolved []
       /\ getTasks no_faults st' = Resolved []
       /\ getTheme st' = "light"
       /\ getNotificationSettings st' = false.
Proof.
  split; [reflexivity | split; [reflexivity |]].
  destruct (clearAllData_resets Examples.home) as [[st' Hrun] Hafter].
  exists st'. split; [exact Hrun |].
  exact (Hafter no_faults st' Hrun).
Defined.

(** Completing the pill task leaves the rest of the example store. *)
Lemma completeTask_frame_witness :
  let st' := snd (completeTask (host := Examples.utc) no_faults 1706659200123
                    "t1" Examples.home) in
  Spec.keyed Examples.home
  /\ pets (db st') = pets (db Examples.home)
  /\ localStorage st' = localStorage Examples.home
  /\ (forall key, key <> "t1" ->
        tasks (db st') !! key = tasks (db Examples.home) !! key)
  /\ match tasks (db Examples.home) !! "t1", tasks (db st') !! "t1" with
     | Some task, Some task' =>
         Task.id task' = Task.id task
         /\ Task.petId task' = Task.petId task
         /\ Task.type task' = Task.type task
         /\ Task.title task' = Task.title task
         /\ Task.frequencyDays task' = Task.frequencyDays task
     | None, None => True
     | _, _ => False
     end.
Proof.
  intros st'. split; [exact home_keyed |].
  apply (completeTask_frame (host := Examples.utc) no_faults 1706659200123
           "t1" Examples.home).
  split; simpl;
    repeat (apply map_Forall_insert_2; [reflexivity |]);
    apply map_Forall_empty.
Defined.

(** The reads and writes of the example store under each fault. *)
Example faults_home :
  getPets (Env (Some "InvalidStateError") IDB.NoFault) Examples.home = Resolved []
  /\ getPets (Env None (IDB.RequestFault "UnknownError")) Examples.home
     = Rejected (IDB.request_error "UnknownError")
  /\ getTasks (Env None (IDB.RequestFault "UnknownError")) Examples.home
     = Rejected (IDB.request_error "UnknownError")
  /\ savePet (Env (Some "InvalidStateError") IDB.NoFault) Examples.tom Examples.home
     = (Rejected (IDB.request_error "InvalidStateError"), Examples.home)
  /\ savePet (Env None (IDB.RequestFault "QuotaExceededError")) Examples.tom
       Examples.home
     = (Rejected (IDB.request_error "QuotaExceededError"), Examples.home).
Proof. done. Qed.

(** The dashboard at noon of 2 January 2024, UTC, over the three tasks of
    the example store, due on 1, 2 and 3 January. *)
Lemma due_today_filter_witness :
  let clock := 1704196800000 in
  Spec.calendar_monotone (host := Examples.utc)
  /\ (DashboardView.shown (host := Examples.utc) DashboardView.today clock
        Examples.pill = true
      /\ DashboardView.shown (host := Examples.utc) DashboardView.today clock
           Examples.ears = true
      /\ DashboardView.shown (host := Examples.utc) DashboardView.today clock
           Examples.nails = false)
  /\ exists v',
       DashboardView.loadData (host := Examples.utc) no_faults no_faults
         Examples.home DashboardView.initial = (Resolved tt, v')
       /\ DashboardView.filteredTasks (host := Examples.utc) (fun _ => clock)
            (DashboardView.setFilter DashboardView.all v')
          = DashboardView.tasks v'
       /\ DashboardView.tasks v'
          ≡ₚ [Examples.pill; Examples.ears; Examples.nails]
       /\ Spec.ascending (host := Examples.utc) (DashboardView.tasks v').
Proof.
  intros clock.
  destruct (due_today_filter (host := Examples.utc) utc_calendar_monotone)
    as (_ & Hdays & Hall).
  split; [exact utc_calendar_monotone | split].
  - split; [| split].
    + destruct (Hdays clock Examples.pill 1704096000000) as (Hbefore & _ & _);
        [by vm_compute |].
      apply Hbefore. by vm_compute.
    + destruct (Hdays clock Examples.ears 1704182400000) as (_ & Hsame & _);
        [by vm_compute |].
      apply Hsame. by vm_compute.
    + destruct (Hdays clock Examples.nails 1704268800000) as (_ & _ & Hafter);
        [by vm_compute |].
      apply Hafter. by vm_compute.
  - eexists. split; [reflexivity |].
    apply (Hall (fun _ => clock) no_faults no_faults Examples.home
             DashboardView.initial).
    + by vm_compute.
    + repeat constructor; by vm_compute.
    + reflexivity.
Defined.

Example dashboard_home :
  let v := snd (DashboardView.loadData (host := Examples.utc) no_faults
                  no_faults Examples.home DashboardView.initial) in
  DashboardView.filteredTasks (host := Examples.utc)
    (fun i => 1704196800000 + Z.of_nat i) v
  = [Examples.pill; Examples.ears]
  /\ DashboardView.filteredTasks (host := Examples.utc)
       (fun i => 1704196800000 + Z.of_nat i)
       (DashboardView.setFilter DashboardView.all v)
     = [Examples.pill; Examples.ears; Examples.nails].
Proof. by vm_compute. Qed.

(** The assistant with a key and a call that rejects. *)
Lemma askAssistant_fallback_witness :
  exists s,
    s ∈ Spec.fallbacks
    /\ GeminiService.askAssistant "key"
         (fun _ => Rejected "offline" : outcome string GeminiService.response)
         "hi"
       = Resolved s.
Proof.
  destruct (askAssistant_fallback "key"
              (fun _ => Rejected "offline"
                 : outcome string GeminiService.response) "hi")
    as (_ & _ & Hfault).
  apply Hfault. right. left. by eexists.
Defined.

End AtWork.

(** * More of the code *)

(** ** Preferences *)

Section Preferences.
Import JS IDB StorageService.

(** X1. A theme saved is the theme read, and a notification setting saved
    is the setting read; neither touches the other nor the database. *)
Theorem preferences_round_trip (theme : string) (enabled : bool) (st : state) :
  theme <> "" ->
  getTheme (saveTheme theme st) = theme
  /\ getNotificationSettings (saveNotificationSettings enabled st) = enabled
  /\ getNotificationSettings (saveTheme theme st) = getNotificationSettings st
  /\ getTheme (saveNotificationSettings enabled st) = getTheme st
  /\ db (saveTheme theme st) = db st
  /\ db (saveNotificationSettings enabled st) = db st.
Proof.
  intros Hne. unfold getTheme, getNotificationSettings, saveTheme,
    saveNotificationSettings. simpl.
  rewrite !lookup_insert_eq, !lookup_insert_ne by done.
  rewrite decide_False by done.
  repeat split. destruct enabled.
  - by apply bool_decide_eq_true.
  - by apply bool_decide_eq_false.
Qed.

(** An empty theme saved reads as 'light', and so does a store that never
    had one. *)
Lemma getTheme_default st :
  getTheme (saveTheme "" st) = "light"
  /\ (localStorage st !! THEME_KEY = None -> getTheme st = "light").
Proof.
  unfold getTheme, saveTheme. simpl. rewrite lookup_insert_eq.
  split; [done |]. by intros ->.
Qed.

End Preferences.

(** ** The storage service under faults *)

Section MoreService.
Import JS IDB StorageService.
Context `{host : JSDate.Platform}.

(** X2. The invariant of the key path, that every record is stored under
    its own [id], is kept by every operation of the storage service,
    whatever the faults. *)
Theorem keyed_kept (st : state) :
  Spec.keyed st ->
  forall e,
    (forall pet, Spec.keyed (snd (savePet e pet st)))
    /\ (forall task, Spec.keyed (snd (saveTask e task st)))
    /\ (forall id, Spec.keyed (snd (deletePet e id st)))
    /\ (forall id, Spec.keyed (snd (deleteTask e id st)))
    /\ (forall clock id, Spec.keyed (snd (completeTask e clock id st)))
    /\ Spec.keyed (snd (clearAllData e st))
    /\ (forall theme, Spec.keyed (saveTheme theme st))
    /\ (forall enabled, Spec.keyed (saveNotificationSettings enabled st)).
Proof.
  intros Hk e.
  split; [intros; by apply keyed_savePet |].
  split; [intros; by apply keyed_saveTask |].
  split; [intros; by apply keyed_deletePet |].
  split; [intros; by apply keyed_deleteTask |].
  split; [intros; by apply keyed_completeTask |].
  split; [by apply keyed_clearAllData |].
  split; intros; exact Hk.
Qed.

(** X3. [deleteTask] removes the task of the key and no other: it
    resolves, the tasks listed afterwards are those listed before whose
    [id] is not the key, and the pets are as before. *)
Theorem deleteTask_removes_one (id : string) (st : state) :
  Spec.keyed st ->
  exists st',
    deleteTask no_faults id st = (Resolved tt, st')
    /\ pets (db st') = pets (db st)
    /\ localStorage st' = localStorage st
    /\ forall task,
         task ∈ getAll (tasks (db st'))
         <-> task ∈ getAll (tasks (db st)) /\ Task.id task <> id.
Proof.
  intros [_ Ht]. eexists. split; [reflexivity |]. simpl.
  split; [done | split; [done |]].
  intros task. rewrite !elem_of_getAll. unfold delete. split.
  - intros [key [Hne Hl]%lookup_delete_Some]. split; [by exists key |].
    apply Ht in Hl. simpl in Hl. congruence.
  - intros [[key Hl] Hne]. exists key. apply lookup_delete_Some.
    split; [| done]. pose proof (Ht _ _ Hl) as Hid. simpl in Hid. congruence.
Qed.

(** X4. [deletePet], [completeTask] and [clearAllData] settle on the
    events of their transaction: when they resolve, what they did is
    committed.  [savePet], [saveTask] and [deleteTask] settle on the
    success of their request: when the commit fails after it they have
    resolved, and the stores are as before. *)
Theorem resolved_and_committed (st : state) :
  (forall e id st', deletePet e id st = (Resolved tt, st') ->
     st' = snd (deletePet no_faults id st))
  /\ (forall e clock id st', completeTask e clock id st = (Resolved tt, st') ->
        st' = snd (completeTask no_faults clock id st))
  /\ (forall e st', clearAllData e st = (Resolved tt, st') ->
        st' = snd (clearAllData no_faults st))
  /\ (forall err pet task id,
        savePet (Env None (CommitFault err)) pet st = (Resolved tt, st)
        /\ saveTask (Env None (CommitFault err)) task st = (Resolved tt, st)
        /\ deleteTask (Env None (CommitFault err)) id st = (Resolved tt, st)).
Proof.
  split; [| split; [| split]].
  - intros e id st'. apply deletePet_Resolved.
  - intros e clock id st'. unfold completeTask, openDB.
    destruct e as [[err |] f]; simpl; [done |].
    destruct (complete_handler clock _ _) as [store' |]; simpl;
      destruct f; simpl; intros [= <-]; done.
  - intros e st'. unfold clearAllData, openDB.
    destruct e as [[err |] [| e | e]]; simpl; intros [= <-]; done.
  - intros err pet task id. by destruct st.
Qed.


(** X6. [clearAllData] is not one unit of work: when its transaction
    fails, the preferences are gone, the pets and tasks are as before, and
    the promise never settles; when the database does not open, nothing is
    changed and the promise rejects. *)
Theorem clearAllData_faults (st : state) :
  (forall e, open_error e = None -> tx_fault e <> NoFault ->
     exists st',
       clearAllData e st = (Pending, st')
       /\ db st' = db st
       /\ getTheme st' = "light"
       /\ getNotificationSettings st' = false)
  /\ (forall err f,
        clearAllData (Env (Some err) f) st = (Rejected (request_error err), st)).
Proof.
  split; [| done].
  intros [o f] Hopen Hf. simpl in *. subst o. unfold clearAllData. simpl.
  assert (Hprefs : forall d,
             getTheme (State d (base.delete NOTIFICATIONS_KEY
                                  (base.delete THEME_KEY (localStorage st))))
             = "light"
             /\ getNotificationSettings
                  (State d (base.delete NOTIFICATIONS_KEY
                              (base.delete THEME_KEY (localStorage st))))
                = false).
  { intros d. unfold getTheme, getNotificationSettings. simpl.
    rewrite lookup_delete_ne by done. rewrite !lookup_delete_eq.
    split; [done |]. by apply bool_decide_eq_false. }
  destruct f as [| err | err]; [done | |]; simpl;
    eexists; (split; [reflexivity |]); (split; [done |]); apply Hprefs.
Qed.

(** X7. Deleting twice is deleting once, and saving twice is saving
    once. *)
Theorem repeated_writes (id : string) (pet : Pet.t) (task : Task.t)
    (st : state) :
  deletePet no_faults id (snd (deletePet no_faults id st))
  = (Resolved tt, snd (deletePet no_faults id st))
  /\ deleteTask no_faults id (snd (deleteTask no_faults id st))
     = (Resolved tt, snd (deleteTask no_faults id st))
  /\ savePet no_faults pet (snd (savePet no_faults pet st))
     = (Resolved tt, snd (savePet no_faults pet st))
  /\ saveTask no_faults task (snd (saveTask no_faults task st))
     = (Resolved tt, snd (saveTask no_faults task st)).
Proof.
  split; [| split; [| split]].
  - rewrite !deletePet_no_faults. simpl. unfold set_db. simpl.
    do 3 f_equal.
    + apply map_eq. intros key.
      destruct (decide (key = id)) as [-> |].
      * by rewrite !lookup_delete_eq.
      * by rewrite !lookup_delete_ne.
    + apply map_filter_id. intros key t Hl.
      by apply map_lookup_filter_Some in Hl as [_ Hne].
  - unfold deleteTask, set_db, delete. simpl. do 3 f_equal.
    apply map_eq. intros key. destruct (decide (key = id)) as [-> |].
    + by rewrite !lookup_delete_eq.
    + by rewrite !lookup_delete_ne.
  - unfold savePet, set_db, put. simpl. do 3 f_equal.
    apply insert_insert_eq.
  - unfold saveTask, set_db, put. simpl. do 3 f_equal.
    apply insert_insert_eq.
Qed.

(** [completeTask] with no fault, case by case. *)
Lemma completeTask_run T id st :
  completeTask no_faults T id st =
  match tasks (db st) !! id with
  | None => (Resolved tt, st)
  | Some task =>
      match JSDate.toISOString (Num T),
            JSDate.toISOString
              (JSDate.setDate (Num T)
                 (add (JSDate.getDate (Num T)) (Task.frequencyDays task)))
      with
      | Some last, Some next =>
          (Resolved tt,
           set_db
             (Stores (pets (db st))
                (<[Task.id task :=
                     Task.mk (Task.id task) (Task.petId task) (Task.type task)
                       (Task.title task) (Task.frequencyDays task)
                       (Some last) next]> (tasks (db st))))
             st)
      | _, _ => (Pending, st)
      end
  end.
Proof.
  unfold completeTask, get. cbn [openDB open_error no_faults tx_fault].
  destruct (tasks (db st) !! id) as [task |].
  - unfold complete_handler, JSDate.ofDate.
    destruct (JSDate.toISOString (Num T)) as [last |];
      cbn [mbind option_bind transaction]; [| by rewrite set_db_id].
    destruct task as [i p ty ti fr ld nd].
    cbn [Task.frequencyDays Task.set_lastDoneDate].
    destruct (JSDate.toISOString _) as [next |];
      cbn [mbind option_bind transaction]; [done | by rewrite set_db_id].
  - simpl. by rewrite stores_eta, set_db_id.
Qed.

(** X8. The last completion wins: when completing a task at [T2]
    resolves, completing it at [T1] first makes no difference to the
    stores it leaves.  The dates of a task depend on the time of its last
    completion and on nothing before it. *)
Theorem completeTask_last_wins (T1 T2 : Z) (id : string) (st : state) :
  fst (completeTask no_faults T2 id st) = Resolved tt ->
  completeTask no_faults T2 id (snd (completeTask no_faults T1 id st))
  = completeTask no_faults T2 id st.
Proof.
  intros Hres.
  rewrite (completeTask_run T1 id st).
  destruct (tasks (db st) !! id) as [task |] eqn:Hl; [| done].
  destruct (JSDate.toISOString (Num T1)) as [last1 |]; [| done].
  destruct (JSDate.toISOString _) as [next1 |]; [| done].
  rewrite (completeTask_run T2 id st) in Hres |- *. rewrite Hl in Hres |- *.
  rewrite completeTask_run. cbn [snd set_db db tasks pets].
  destruct (decide (Task.id task = id)) as [Hid | Hid].
  - rewrite Hid, lookup_insert_eq. cbn [Task.id Task.petId Task.type
      Task.title Task.frequencyDays].
    destruct (JSDate.toISOString (Num T2)) as [last2 |]; [| done].
    destruct (JSDate.toISOString _) as [next2 |]; [| done].
    unfold set_db. cbn [db localStorage pets tasks].
    by rewrite insert_insert_eq.
  - rewrite lookup_insert_ne, Hl by done.
    destruct (JSDate.toISOString (Num T2)) as [last2 |]; [| done].
    destruct (JSDate.toISOString _) as [next2 |]; [| done].
    unfold set_db. cbn [db localStorage pets tasks].
    by rewrite insert_insert_eq.
Qed.

(** X9. On a machine whose offset from UTC never changes, the next due
    date is the time of completion plus [F] times 24 hours. *)
Theorem setDate_fixed_offset (offset T F : Z) :
  (forall t b, JSDate.LocalTZA t b = offset) ->
  JSDate.setDate (JSDate.ofDate (Num T))
    (add (JSDate.getDate (Num T)) (Num F))
  = JSDate.TimeClip (Num (T + F * JSDate.msPerDay)).
Proof.
  intros Hoff. rewrite setDate_getDate. by apply (plusDays_fixed_offset offset).
Qed.

End MoreService.

(** ** Forms and identifiers *)

Section Forms.
Import JS JSDate IDB StorageService.

Lemma decimal_inj (a b : N) : decimal a = decimal b -> a = b.
Proof.
  unfold decimal. intros Heq.
  apply DecimalN.Unsigned.to_uint_inj.
  pose proof (NilEmpty.usu (N.to_uint a)) as Ha.
  rewrite Heq, NilEmpty.usu in Ha. congruence.
Qed.

Lemma decimal_not_minus (a : N) s : decimal a <> String "-" s.
Proof.
  unfold decimal. intros Heq.
  pose proof (NilEmpty.usu (N.to_uint a)) as Ha.
  rewrite Heq in Ha. simpl in Ha.
  by destruct (NilEmpty.uint_of_string s).
Qed.

(** Two integers print alike only when they are equal. *)
Lemma toString_inj (x y : Z) : toString x = toString y -> x = y.
Proof.
  unfold toString.
  destruct (Z.ltb_spec x 0), (Z.ltb_spec y 0); intros Heq.
  - rewrite !append_String, !append_nil_l in Heq. injection Heq as Heq.
    apply decimal_inj in Heq. lia.
  - rewrite append_String, append_nil_l in Heq. symmetry in Heq.
    by apply decimal_not_minus in Heq.
  - rewrite append_String, append_nil_l in Heq.
    by apply decimal_not_minus in Heq.
  - apply decimal_inj in Heq. lia.
Qed.

(** X10. A form with no title, or with no pet, stores no task, and a form
    with no name stores no pet: the handlers return before any call to the
    storage service, and leave the store and the view as they are. *)
Theorem empty_forms_store_nothing (clockId clock : Z)
    (eSave ePets eTasks : env) (st : state) (v : PetsView.view)
    (f : PetsView.petForm) :
  (PetsView.newTaskTitle v = "" \/ PetsView.showAddTask v = None
   \/ PetsView.showAddTask v = Some "" ->
   PetsView.handleAddTask clockId clock eSave ePets eTasks st v
   = (Resolved tt, st, v))
  /\ (PetsView.newPetName f = "" ->
      PetsView.handleAddPet clockId clock eSave ePets eTasks st v f
      = (Resolved tt, st, v, f)).
Proof.
  split.
  - intros Hempty. unfold PetsView.handleAddTask, PetsView.newTask,
      PetsView.truthy.
    destruct Hempty as [-> | [-> | ->]]; simpl; [done | |];
      by destruct (decide (PetsView.newTaskTitle v = "")).
  - intros Hname. unfold PetsView.handleAddPet, PetsView.newPet,
      PetsView.truthy. by rewrite Hname.
Qed.

(** X11. With a title and a pet, and no fault, [handleAddTask] stores the
    task of the form under the identifier made of the clock, reloads, and
    resets the form: the task is among the tasks listed, the form is
    closed, its title emptied and its frequency back to 1. *)
Theorem handleAddTask_done (clockId clockDue : Z) (pet : string)
    (st : state) (v : PetsView.view) :
  PetsView.newTaskTitle v <> "" ->
  PetsView.showAddTask v = Some pet -> pet <> "" ->
  exists due st' v',
    toISOString (Num clockDue) = Some due
    /\ PetsView.handleAddTask clockId clockDue no_faults no_faults no_faults
         st v = (Resolved tt, st', v')
    /\ let task := Task.mk (toString clockId) pet (PetsView.newTaskType v)
                     (PetsView.newTaskTitle v) (PetsView.newTaskFreq v) None
                     due in
       tasks (db st') !! toString clockId = Some task
       /\ task ∈ PetsView.tasks v'
       /\ PetsView.tasks v' = getAll (tasks (db st'))
       /\ PetsView.pets v' = getAll (pets (db st))
       /\ PetsView.showAddTask v' = None
       /\ PetsView.newTaskTitle v' = ""
       /\ PetsView.newTaskFreq v' = Num 1
       /\ PetsView.newTaskType v' = PetsView.newTaskType v.
Proof.
  intros Htitle Hpet Hne.
  destruct (toISOString_Num clockDue) as [due Hdue].
  exists due. do 2 eexists. split; [done |].
  unfold PetsView.handleAddTask, PetsView.newTask, PetsView.truthy.
  rewrite Hpet, Hdue, !decide_False by done. simpl.
  split; [reflexivity |]. simpl. unfold put. simpl.
  split; [apply lookup_insert_eq |].
  split; [| done].
  apply elem_of_getAll. exists (toString clockId). apply lookup_insert_eq.
Qed.


(** X13. Identifiers come from the clock.  Two tasks created at different
    readings of the clock are both stored; two tasks created at the same
    reading have the same identifier, and the second takes the place of
    the first. *)
Theorem task_identifiers (c1 c2 d1 d2 : Z) (t1 t2 : Task.t)
    (v1 v2 : PetsView.view) (st : state) :
  PetsView.newTask c1 d1 v1 = Some t1 ->
  PetsView.newTask c2 d2 v2 = Some t2 ->
  let st1 :=
    (PetsView.handleAddTask c1 d1 no_faults no_faults no_faults st v1).1.2 in
  let st2 :=
    (PetsView.handleAddTask c2 d2 no_faults no_faults no_faults st1 v2).1.2 in
  (c1 <> c2 ->
   tasks (db st2) !! Task.id t1 = Some t1
   /\ tasks (db st2) !! Task.id t2 = Some t2)
  /\ (c1 = c2 ->
      Task.id t1 = Task.id t2 /\ tasks (db st2) !! Task.id t1 = Some t2).
Proof.
  intros H1 H2 st1 st2. subst st1 st2.
  unfold PetsView.handleAddTask. rewrite H1, H2. simpl.
  apply newTask_fields in H1 as (_ & _ & _ & Hid1 & _).
  apply newTask_fields in H2 as (_ & _ & _ & Hid2 & _).
  unfold put. split.
  - intros Hne.
    assert (Task.id t1 <> Task.id t2).
    { rewrite Hid1, Hid2. intros Heq. by apply toString_inj in Heq. }
    rewrite lookup_insert_ne, !lookup_insert_eq by done. done.
  - intros ->. assert (Heq : Task.id t1 = Task.id t2) by congruence.
    split; [done |]. rewrite Heq. apply lookup_insert_eq.
Qed.

End Forms.

(** ** More of the dashboard *)

Section MoreDashboard.
Import JS JSDate IDB StorageService DashboardView.
Context `{host : Platform}.

(** Looking a record up by its [id] in the listing of a store. *)
Lemma find_getAll {A : Type} (keyPath : A -> string)
    (store : gmap string A) (key : string) :
  map_Forall (fun k value => keyPath value = k) store ->
  List.find (fun value => bool_decide (keyPath value = key)) (getAll store)
  = store !! key.
Proof.
  intros Hkeyed.
  destruct (List.find _ _) as [value |] eqn:Hfind.
  - apply find_some in Hfind as [Hin Hkey].
    apply bool_decide_eq_true in Hkey.
    apply list_elem_of_In, elem_of_getAll in Hin as [k Hk].
    pose proof (Hkeyed _ _ Hk) as Hid. simpl in Hid. congruence.
  - destruct (store !! key) as [value |] eqn:Hl; [| done].
    assert (Hin : In value (getAll store)).
    { apply list_elem_of_In, elem_of_getAll. by exists key. }
    apply (find_none _ _ Hfind) in Hin.
    apply bool_decide_eq_false in Hin.
    pose proof (Hkeyed _ _ Hl) as Hid. simpl in Hid. done.
Qed.

(** X14. After a load whose read of the pets reached the store,
    [getPetName] gives the name of the pet stored under the id, and the
    stand-in name when no pet is stored under it or its name is empty: a
    task whose pet is gone is shown under the stand-in name. *)
Theorem getPetName_loaded (eTasks ePets : env) (st : state) (v v' : view)
    (id : string) :
  Spec.keyed st ->
  open_error ePets = None ->
  loadData eTasks ePets st v = (Resolved tt, v') ->
  getPetName v' id =
  match StorageService.pets (db st) !! id with
  | Some pet => if decide (Pet.name pet = "") then "Питомец" else Pet.name pet
  | None => "Питомец"
  end.
Proof.
  intros [Hp _] Hopen. unfold loadData, getPets, openDB. rewrite Hopen.
  destruct (getTasks eTasks st) as [fetchedTasks | r |];
    destruct (tx_fault ePets); simpl; try done; intros [= <-];
    unfold getPetName; simpl; by rewrite (find_getAll Pet.id).
Qed.

(** X15. [loadData] ends the loading state exactly when both reads
    resolve.  When neither database opens the view shows no task and no
    pet; when a read rejects the view stays as it was, loading. *)
Theorem loadData_outcomes (eTasks ePets : env) (st : state) :
  (loading (snd (loadData eTasks ePets st initial)) = false
   <-> fst (loadData eTasks ePets st initial) = Resolved tt)
  /\ (open_error eTasks <> None -> open_error ePets <> None ->
      loadData eTasks ePets st initial
      = (Resolved tt, View [] [] today false))
  /\ (forall err,
        open_error eTasks = None -> tx_fault eTasks = RequestFault err ->
        loadData eTasks ePets st initial
        = (Rejected (request_error err), initial)).
Proof.
  split; [| split].
  - unfold loadData.
    destruct (all2 _ _) as [[fetchedTasks fetchedPets] | r |]; simpl;
      split; done.
  - intros HT HP. unfold loadData, getTasks, getPets, openDB.
    destruct (open_error eTasks); [| done].
    destruct (open_error ePets); [| done]. reflexivity.
  - intros err HT Hf. unfold loadData, getTasks, openDB.
    rewrite HT, Hf. reflexivity.
Qed.

Lemma filter_from_Forall (P : Task.t -> Prop) f clock i l :
  Forall P l -> Forall P (filter_from f clock i l).
Proof.
  intros Hl. revert i. induction Hl as [| x l Hx Hl IH]; intros i; simpl.
  - constructor.
  - destruct (shown f (clock i) x); [constructor |]; auto.
Qed.

Lemma filter_from_StronglySorted (R : relation Task.t) f clock i l :
  StronglySorted R l -> StronglySorted R (filter_from f clock i l).
Proof.
  intros Hs. revert i. induction Hs as [| x l Hs IH Hx]; intros i; simpl.
  - constructor.
  - destruct (shown f (clock i) x); [| by apply IH].
    constructor; [by apply IH | by apply filter_from_Forall].
Qed.

Lemma filter_from_sublist f clock i l : filter_from f clock i l `sublist_of` l.
Proof.
  revert i. induction l as [| x l IH]; intros i; simpl; [done |].
  destruct (shown f (clock i) x).
  - by apply sublist_skip.
  - by apply sublist_cons.
Qed.

(** X16. Whatever the filter, the tasks shown are tasks loaded, in the
    order in which they were loaded: after a load of tasks with valid
    dates, each view is in ascending order of [nextDueDate]. *)
Theorem filteredTasks_ordered (clock : nat -> Z) (eTasks ePets : env)
    (st : state) (v v' : view) (f : filter) (fetched : list Task.t) :
  getTasks eTasks st = Resolved fetched ->
  Forall Spec.valid fetched ->
  loadData eTasks ePets st v = (Resolved tt, v') ->
  filteredTasks clock (setFilter f v') `sublist_of` tasks v'
  /\ Spec.ascending (filteredTasks clock (setFilter f v')).
Proof.
  intros Hget Hvalid. unfold loadData. rewrite Hget.
  destruct (getPets ePets st) as [fetchedPets | r |]; simpl; [| done..].
  intros [= <-]. unfold filteredTasks. simpl.
  split; [apply filter_from_sublist |].
  apply filter_from_StronglySorted. by apply sort_ascending.
Qed.

(** X17. A task whose [nextDueDate] is not read as a date is never shown
    under 'today', at any time, and always under 'all'. *)
Theorem invalid_date_never_due (clock : Z) (task : Task.t) :
  Spec.dueTime task = NaN ->
  shown today clock task = false /\ shown all clock task = true.
Proof.
  unfold Spec.dueTime, shown. intros ->. simpl. split; [| done].
  apply bool_decide_eq_false. apply Invalid_Date_DateString.
Qed.

End MoreDashboard.

(** ** Completing from the dashboard *)

Section Rescheduling.
Import JS JSDate IDB StorageService DashboardView.
Context `{host : Platform}.

(** X18. Completing a task from the dashboard reloads the view, and the
    task then stays on the list of today exactly when its new due date is
    on or before the calendar date of the clock: completed with a
    frequency that carries it to a later day, it leaves the list. *)
Theorem handleComplete_today (T F r c : Z) (clock : nat -> Z) (id : string)
    (task : Task.t) (st : state) (v : view) :
  Spec.reads_ISO -> Spec.calendar_monotone ->
  Z.abs T <= 8640000000000000 ->
  Spec.keyed st ->
  StorageService.tasks (db st) !! id = Some task ->
  Task.frequencyDays task = Num F ->
  Spec.plusDays T F = Num r ->
  (forall i, Spec.calendarDate (clock i) = c) ->
  exists st' v',
    handleComplete no_faults no_faults no_faults T id st v
    = (Resolved tt, st', v')
    /\ loading v' = false
    /\ ((exists task',
           task' ∈ filteredTasks clock (setFilter today v')
           /\ Task.id task' = id)
        <-> Spec.calendarDate r <= c).
Proof.
  intros Hreads Hmono HT Hk Hl HF Hr Hc.
  destruct (completeTask_reads_back Hreads T F r id task st HT Hk Hl HF Hr)
    as (task' & Hl' & _ & Hdue').
  pose proof (keyed_completeTask no_faults T id st Hk) as [_ Hk'].
  destruct (complete_handler_Some T task (StorageService.tasks (db st)) F r
              HF Hr) as (last & next & _ & _ & Hh).
  unfold handleComplete.
  destruct (completeTask no_faults T id st) as [o st'] eqn:Hrun.
  rewrite (completeTask_no_faults T id st _ ltac:(by rewrite Hl)) in Hrun.
  injection Hrun as <- Hst'. simpl in Hl', Hk'. clear Hh.
  unfold loadData. rewrite getTasks_no_faults, getPets_no_faults. simpl.
  do 2 eexists. split; [reflexivity |]. split; [done |].
  unfold filteredTasks. simpl.
  pose proof (shown_today_due) as Hshown.
  assert (Hdue : forall i, shown today (clock i) task' = true
                           <-> Spec.calendarDate r <= c).
  { intros i. rewrite (shown_today_due _ _ Hmono). unfold Spec.due.
    by rewrite Hdue', Hc. }
  split.
  - intros (task'' & Hin & Hid).
    apply elem_of_filter_from in Hin as (j & Hj & Hs).
    apply list_elem_of_lookup_2 in Hj.
    rewrite sort_Permutation in Hj.
    apply elem_of_getAll in Hj as [key Hkey].
    pose proof (Hk' _ _ Hkey) as Hid'. simpl in Hid'.
    assert (task'' = task') as -> by congruence.
    by apply (Hdue (0 + j)%nat).
  - intros Hle. exists task'. split.
    + assert (Hin : task' ∈ sort byNextDueDate
                              (getAll (StorageService.tasks (db st')))).
      { rewrite sort_Permutation. apply elem_of_getAll. by exists id. }
      apply list_elem_of_lookup_1 in Hin as [j Hj].
      apply elem_of_filter_from. exists j. split; [done |]. by apply Hdue.
    + pose proof (Hk' _ _ Hl') as Hid'. done.
Qed.

(** X19. [formatDate] labels a date by its local calendar day: 'Сегодня'
    on the day of the clock, 'Завтра' on the day after it, and the
    rendering of the locale on any other day, also a day before the
    clock's.  A string that is not read as a date gets the rendering of
    the locale too. *)
Theorem formatDate_labels (toLocaleDateString : number -> string)
    (clock r : Z) (isoString : string) :
  let local :=
    (Spec.calendarDate clock + 1) * msPerDay + TimeWithinDay (LocalTime clock)
  in
  LocalTZA (UTC local) true = LocalTZA local false ->
  Spec.plusDays clock 1 = Num r ->
  formatDate toLocaleDateString clock isoString =
  match ofString isoString with
  | Num d =>
      if decide (Spec.calendarDate d = Spec.calendarDate clock)
      then "Сегодня"
      else if decide (Spec.calendarDate d = Spec.calendarDate clock + 1)
      then "Завтра"
      else toLocaleDateString (Num d)
  | NaN => toLocaleDateString NaN
  end.
Proof.
  intros local Hoff Hr.
  destruct (plusDays_local clock 1 r Hoff Hr) as [Hday _].
  unfold formatDate. rewrite setDate_getDate, Hr.
  destruct (ofString isoString) as [d |]; simpl.
  - rewrite !(bool_decide_ext _ _ (DateString_same_day _ _)).
    fold (Spec.calendarDate d) (Spec.calendarDate clock)
      (Spec.calendarDate r).
    rewrite Hday.
    destruct (decide (Spec.calendarDate d = Spec.calendarDate clock)).
    + by rewrite bool_decide_eq_true_2.
    + rewrite bool_decide_eq_false_2 by done.
      destruct (decide (Spec.calendarDate d = Spec.calendarDate clock + 1)).
      * by rewrite bool_decide_eq_true_2.
      * by rewrite bool_decide_eq_false_2.
  - rewrite !bool_decide_eq_false_2; [done | |];
      apply Invalid_Date_DateString.
Qed.

End Rescheduling.

(** ** The pets view *)

Section MorePets.
Import JS JSDate IDB StorageService.

(** X20. With a name and no fault, [handleAddPet] stores the pet of the
    form under the identifier made of the clock, with the image chosen or,
    when there is none, a placeholder address made of the clock; the other
    pets and the tasks are as before, the view lists the pets stored, and
    the form is closed and emptied. *)
Theorem handleAddPet_done (clockId clockUrl : Z) (st : state)
    (v : PetsView.view) (f : PetsView.petForm) :
  PetsView.newPetName f <> "" ->
  exists st' v',
    PetsView.handleAddPet clockId clockUrl no_faults no_faults no_faults
      st v f = (Resolved tt, st', v', PetsView.PetForm false "" "" None)
    /\ let image :=
         match PetsView.newPetImage f with
         | Some (String c s) => String c s
         | _ => "https://picsum.photos/200/200?random=" +:+ toString clockUrl
         end in
       let pet := Pet.mk (toString clockId) (PetsView.newPetName f)
                    (PetsView.newPetBreed f) None image in
       pets (db st') !! toString clockId = Some pet
       /\ (forall key, key <> toString clockId ->
             pets (db st') !! key = pets (db st) !! key)
       /\ tasks (db st') = tasks (db st)
       /\ pet ∈ PetsView.pets v'
       /\ PetsView.pets v' = getAll (pets (db st'))
       /\ PetsView.tasks v' = getAll (tasks (db st)).
Proof.
  intros Hname.
  unfold PetsView.handleAddPet, PetsView.newPet, PetsView.truthy.
  rewrite decide_False by done. simpl.
  do 2 eexists. split; [reflexivity |]. simpl. unfold put. simpl.
  assert (Himage :
    match match PetsView.newPetImage f with
          | Some x => if decide (x = "") then None else Some x
          | None => None
          end with
    | Some image => image
    | None => "https://picsum.photos/200/200?random=" +:+ toString clockUrl
    end
    = match PetsView.newPetImage f with
      | Some (String c s) => String c s
      | _ => "https://picsum.photos/200/200?random=" +:+ toString clockUrl
      end).
  { by destruct (PetsView.newPetImage f) as [[| c s] |]. }
  rewrite Himage.
  split; [apply lookup_insert_eq |].
  split; [intros key Hne; by apply lookup_insert_ne |].
  split; [done |]. split; [| done].
  apply elem_of_getAll. exists (toString clockId). apply lookup_insert_eq.
Qed.

Lemma filter_none {A : Type} (p : A -> bool) (l : list A) :
  (forall x, x ∈ l -> p x = false) -> List.filter p l = [].
Proof.
  induction l as [| x l IH]; intros Hl; simpl; [done |].
  rewrite (Hl x) by apply list_elem_of_here.
  apply IH. intros y Hy. apply Hl. by apply list_elem_of_further.
Qed.

(** X21. Deleting from the pets view.  When the question is answered no,
    nothing is changed.  When it is answered yes and nothing fails, the
    view is reloaded: after [handleDeletePet] it lists the pets listed by
    the store before but the one deleted and the tasks of the other pets,
    so that no card shows a task of the pet deleted; after
    [handleDeleteTask] it lists the tasks listed before but the one
    deleted, and the pets as before. *)
Theorem handleDelete_view (id : string) (st : state) (v : PetsView.view) :
  Spec.keyed st ->
  (forall eDelete ePets eTasks,
     PetsView.handleDeletePet false eDelete ePets eTasks id st v
     = (Resolved tt, st, v)
     /\ PetsView.handleDeleteTask false eDelete ePets eTasks id st v
        = (Resolved tt, st, v))
  /\ (exists st' v',
        PetsView.handleDeletePet true no_faults no_faults no_faults id st v
        = (Resolved tt, st', v')
        /\ (forall pet,
              pet ∈ PetsView.pets v'
              <-> pet ∈ getAll (pets (db st)) /\ Pet.id pet <> id)
        /\ (forall task,
              task ∈ PetsView.tasks v'
              <-> task ∈ getAll (tasks (db st)) /\ Task.petId task <> id)
        /\ (forall pet, Pet.id pet = id -> PetsView.petTasks v' pet = []))
  /\ (exists st' v',
        PetsView.handleDeleteTask true no_faults no_faults no_faults id st v
        = (Resolved tt, st', v')
        /\ PetsView.pets v' = getAll (pets (db st))
        /\ (forall task,
              task ∈ PetsView.tasks v'
              <-> task ∈ getAll (tasks (db st)) /\ Task.id task <> id)).
Proof.
  intros [Hp Ht]. split; [done | split].
  - unfold PetsView.handleDeletePet. rewrite deletePet_no_faults.
    do 2 eexists. split; [reflexivity |]. simpl.
    assert (Htasks : forall task,
      task ∈ getAll (filter (fun kt : string * Task.t => Task.petId kt.2 <> id)
                       (tasks (db st)))
      <-> task ∈ getAll (tasks (db st)) /\ Task.petId task <> id).
    { intros task. rewrite !elem_of_getAll. split.
      - intros [key [Hl Hne]%map_lookup_filter_Some]. split; [by exists key |].
        done.
      - intros [[key Hl] Hne]. exists key. by apply map_lookup_filter_Some. }
    split; [| split; [done |]].
    + intros pet. rewrite !elem_of_getAll. unfold delete. split.
      * intros [key [Hne Hl]%lookup_delete_Some]. split; [by exists key |].
        apply Hp in Hl. simpl in Hl. congruence.
      * intros [[key Hl] Hne]. exists key. apply lookup_delete_Some.
        split; [| done]. pose proof (Hp _ _ Hl) as Hid. simpl in Hid.
        congruence.
    + intros pet Hid. unfold PetsView.petTasks. simpl. apply filter_none.
      intros task [_ Hne]%Htasks. apply bool_decide_eq_false. congruence.
  - do 2 eexists. split; [reflexivity |]. simpl. split; [done |].
    intros task. rewrite !elem_of_getAll. unfold delete. split.
    + intros [key [Hne Hl]%lookup_delete_Some]. split; [by exists key |].
      apply Ht in Hl. simpl in Hl. congruence.
    + intros [[key Hl] Hne]. exists key. apply lookup_delete_Some.
      split; [| done]. pose proof (Ht _ _ Hl) as Hid. simpl in Hid.
      congruence.
Qed.

End MorePets.

(** ** The settings view *)

Section Settings.
Import JS IDB StorageService SettingsView.

(** X22. The switch of the notifications and the stored setting stay in
    step: when the switch shows the stored setting before
    [toggleNotifications], it shows it after.  The switch goes on only when
    it was off, the browser has notifications and the permission is
    granted; the theme and the database are left as they are. *)
Theorem toggleNotifications_in_step (supported : bool)
    (answer : option permission) (notificationsEnabled : bool) (st : state) :
  notificationsEnabled = mount st ->
  let '(shown, st') :=
    toggleNotifications supported answer notificationsEnabled st in
  shown = mount st'
  /\ (shown = true <->
      notificationsEnabled = false /\ supported = true
      /\ answer = Some granted)
  /\ getTheme st' = getTheme st
  /\ db st' = db st.
Proof.
  intros Hsync. unfold toggleNotifications, mount in *.
  assert (Hon : getNotificationSettings (saveNotificationSettings true st)
                = true).
  { unfold getNotificationSettings, saveNotificationSettings. simpl.
    rewrite lookup_insert_eq. by apply bool_decide_eq_true. }
  assert (Hoff : getNotificationSettings (saveNotificationSettings false st)
                 = false).
  { unfold getNotificationSettings, saveNotificationSettings. simpl.
    rewrite lookup_insert_eq. by apply bool_decide_eq_false. }
  assert (Htheme : forall b,
            getTheme (saveNotificationSettings b st) = getTheme st).
  { intros b. unfold getTheme, saveNotificationSettings. simpl.
    by rewrite lookup_insert_ne. }
  destruct notificationsEnabled; simpl.
  - rewrite Hoff, Htheme. repeat split; try done. by intros (? & _).
  - destruct supported; simpl.
    + destruct answer as [[| |] |]; rewrite ?Hon, ?Hoff, ?Htheme;
        repeat split; try done; by intros (_ & _ & ?).
    + repeat split; try done. by intros (_ & ? & _).
Qed.

End Settings.

(** ** The replies of the assistant *)

Section Replies.
Import JS GeminiService.

(** X23. A reply of [askAssistant] is never empty: it is one of the three
    fixed replies, or the text of the response as it came, and then the
    key is set and the text is not empty. *)
Theorem askAssistant_reply {E : Type} (apiKey : string)
    (generateContent : string -> outcome E response) (message s : string) :
  askAssistant apiKey generateContent message = Resolved s ->
  s <> ""
  /\ (s ∈ Spec.fallbacks
      \/ (apiKey <> "" /\ generateContent message = Resolved (Some s))).
Proof.
  unfold askAssistant, Spec.fallbacks.
  destruct (decide (apiKey = "")) as [Hkey | Hkey].
  { intros [= <-]. split; [done |]. left. set_solver. }
  destruct (generateContent message) as [[text |] | e |]; [| | | done].
  - destruct (decide (text = "")) as [-> | Htext]; intros [= <-].
    + split; [done |]. left. set_solver.
    + split; [done |]. by right.
  - intros [= <-]. split; [done |]. left. set_solver.
  - intros [= <-]. split; [done |]. left. set_solver.
Qed.

End Replies.

(** ** The service worker *)

Section Worker.
Import ServiceWorker.

Lemma filter_ext_in {A : Type} (P Q : A -> Prop)
    `{!forall x, Decision (P x), !forall x, Decision (Q x)} (l : list A) :
  (forall x, x ∈ l -> P x <-> Q x) -> filter P l = filter Q l.
Proof.
  induction l as [| x l IH]; intros Hl; [done |].
  rewrite !filter_cons, IH
    by (intros y Hy; apply Hl; by apply list_elem_of_further).
  apply decide_ext, Hl, list_elem_of_here.
Qed.

Lemma activate_fold (names : list string)
    (cs : list (string * gmap string Response)) :
  foldl (fun cs cacheName =>
           if decide (cacheName <> CACHE_NAME) then delete cacheName cs
           else cs) cs names
  = filter (fun c => c.1 = CACHE_NAME \/ c.1 ∉ names) cs.
Proof.
  revert cs. induction names as [| n names IH]; intros cs; simpl.
  - symmetry. induction cs as [| c cs IHcs]; [done |].
    rewrite filter_cons_True; [by f_equal |].
    right. apply not_elem_of_nil.
  - rewrite IH. destruct (decide (n <> CACHE_NAME)) as [Hne | Heq].
    + unfold delete. rewrite list_filter_filter. apply list_filter_iff.
      intros c. rewrite not_elem_of_cons. split.
      * intros [[-> | Hc] Hn]; [by left | by right].
      * intros [-> | [Hn Hc]]; [split; [by left | congruence] |].
        split; [by right | done].
    + apply dec_stable in Heq. subst n. apply list_filter_iff.
      intros c. rewrite not_elem_of_cons. split.
      * intros [-> | Hc]; [by left |].
        destruct (decide (c.1 = CACHE_NAME)); [by left | by right].
      * intros [-> | [_ Hc]]; [by left | by right].
Qed.

(** X24. Once the worker is activated, the caches left are those called
    [CACHE_NAME], as they were and in the order they were in; every cache
    of another name is gone, whatever its name and however many there
    were. *)
Theorem onActivate_current (cs : list (string * gmap string Response)) :
  onActivate cs = filter (fun c => c.1 = CACHE_NAME) cs.
Proof.
  unfold onActivate. rewrite activate_fold. apply filter_ext_in.
  intros c Hc. split; [| by left].
  intros [Heq | Hnot]; [done |]. destruct Hnot. unfold keys.
  apply list_elem_of_fmap. by exists c.
Qed.

Section Fetch.
Context (network : Request -> option Response)
        (accepts : Request -> Response -> bool).

Lemma elem_of_open name cs c :
  c ∈ open name cs -> c ∈ cs \/ c = (name, ∅).
Proof.
  unfold open. destruct (decide (name ∈ keys cs)); [by left |].
  intros [Hc | Hc%list_elem_of_singleton]%elem_of_app; [by left | by right].
Qed.

(** X25. What the fetch handler stores.  A response held by a cache after
    the handler has run was held by a cache of that name before, or it is
    the response the network gave to this request, stored under the
    address of the request in the cache called [CACHE_NAME]; and then the
    request is a GET that no cache answered, and the response has status
    200 and type 'basic' or 'cors'.  Nothing else is ever stored: no
    response to another method, no error response, no opaque response. *)
Theorem onFetch_stores (request : Request)
    (cs : list (string * gmap string Response)) (name : string)
    (cache : gmap string Response) (address : string) (response : Response) :
  (name, cache) ∈ snd (onFetch network accepts request cs) ->
  cache !! address = Some response ->
  (exists before, (name, before) ∈ cs /\ before !! address = Some response)
  \/ (name = CACHE_NAME
      /\ address = url request
      /\ method request = "GET"
      /\ match_ request cs = None
      /\ network request = Some response
      /\ status response = 200
      /\ (type response = "basic" \/ type response = "cors")).
Proof.
  unfold onFetch. intros Hin Hl.
  destruct (match_ request cs) as [hit |] eqn:Hmatch;
    [left; by exists cache |].
  destruct (network request) as [got |] eqn:Hnet; [| left; by exists cache].
  destruct (negb (status got =? 200)
            || negb (bool_decide (type got = "basic"))
               && negb (bool_decide (type got = "cors"))) eqn:Hok;
    [left; by exists cache |].
  apply orb_false_iff in Hok as [Hstatus Htype].
  apply negb_false_iff, Z.eqb_eq in Hstatus.
  assert (Hty : type got = "basic" \/ type got = "cors").
  { apply andb_false_iff in Htype as [H | H];
      apply negb_false_iff, bool_decide_eq_true in H; auto. }
  simpl in Hin.
  assert (Hopen : forall c, c ∈ open CACHE_NAME cs -> c.2 !! address = Some response ->
            exists before, (c.1, before) ∈ cs /\ before !! address = Some response).
  { intros [n c] [Hc | [= -> ->]]%elem_of_open; simpl.
    - intros Hc'. by exists c.
    - intros Hc'. by rewrite lookup_empty in Hc'. }
  destruct (bool_decide (method request = "GET") && accepts request got)
    eqn:Hput.
  - apply andb_true_iff in Hput as [Hget%bool_decide_eq_true _].
    unfold put in Hin. apply list_elem_of_fmap in Hin as ([n c] & Heq & Hc).
    simpl in Heq. destruct (decide (n = CACHE_NAME)) as [-> | Hn].
    + injection Heq as -> ->.
      destruct (decide (address = url request)) as [-> | Hother].
      * rewrite lookup_insert_eq in Hl. injection Hl as ->. by right.
      * rewrite lookup_insert_ne in Hl by done. left.
        by apply (Hopen (CACHE_NAME, c)).
    + injection Heq as -> ->. left. by apply (Hopen (n, c)).
  - left. by apply (Hopen (name, cache)).
Qed.

Lemma match_open request name cs :
  match_ request cs = None -> match_ request (open name cs) = None.
Proof.
  unfold open. destruct (decide (name ∈ keys cs)) as [| _]; [done |].
  induction cs as [| [n c] cs IH]; simpl.
  - intros _. unfold cache_match. case_decide; [| done].
    by rewrite lookup_empty.
  - by destruct (cache_match request c).
Qed.

Lemma keys_open name cs : name ∈ keys (open name cs).
Proof.
  unfold open. destruct (decide (name ∈ keys cs)) as [| _]; [done |].
  unfold keys. rewrite fmap_app. set_solver.
Qed.

Lemma match_put request response name cs :
  method request = "GET" ->
  match_ request cs = None -> name ∈ keys cs ->
  match_ request (put name request response cs) = Some response.
Proof.
  intros Hget. induction cs as [| [n c] cs IH]; simpl.
  - intros _ Hin. by apply elem_of_nil in Hin.
  - destruct (cache_match request c) eqn:Hc; [done |]. intros Hm Hin.
    destruct (decide (n = name)) as [-> | Hne]; simpl.
    + unfold cache_match. rewrite decide_True by done.
      by rewrite lookup_insert_eq.
    + rewrite Hc. apply IH; [done |].
      apply elem_of_cons in Hin as [Heq | Hin]; [| done].
      simpl in Heq. congruence.
Qed.

(** X26. The handler answers from the cache first, and what it has
    fetched once it serves from then on.  The answer is the response of
    the first cache that holds one; with none, it is the response of the
    network, whatever its status; with neither, there is none.  Once a
    GET request has been answered by the network with status 200 and type
    'basic' or 'cors', and the cache has taken the response, the same
    request is answered with that response whatever the network does. *)
Theorem onFetch_cache_first (request : Request)
    (cs : list (string * gmap string Response)) :
  fst (onFetch network accepts request cs)
  = match match_ request cs with
    | Some response => Some response
    | None => network request
    end
  /\ forall response,
       method request = "GET" ->
       match_ request cs = None ->
       network request = Some response ->
       status response = 200 ->
       type response = "basic" \/ type response = "cors" ->
       accepts request response = true ->
       forall network' accepts',
         onFetch network' accepts' request
           (snd (onFetch network accepts request cs))
         = (Some response, snd (onFetch network accepts request cs)).
Proof.
  split.
  - unfold onFetch. destruct (match_ request cs); [done |].
    destruct (network request); [| done]. by case_match.
  - intros response Hget Hmatch Hnet Hstatus Htype Hacc network' accepts'.
    unfold onFetch at 2 3. rewrite Hmatch, Hnet, Hstatus, Hacc.
    rewrite (bool_decide_eq_true_2 _ Hget).
    assert (Hty : negb (bool_decide (type response = "basic"))
                  && negb (bool_decide (type response = "cors")) = false).
    { destruct Htype as [H | H]; rewrite (bool_decide_eq_true_2 _ H);
        [done | by rewrite andb_false_r]. }
    rewrite Hty. simpl.
    unfold onFetch.
    by rewrite (match_put request response CACHE_NAME _ Hget
                  (match_open _ _ _ Hmatch) (keys_open _ _)).
Qed.

End Fetch.
End Worker.

(** ** From the form to the dashboard *)

Section Created.
Import JS JSDate IDB StorageService.
Context `{host : Platform}.

(** X27. A task made with the form is on the list of today at once: once
    [handleAddTask] has stored it, the dashboard loaded from the store
    shows it under 'today', at any reading of the clock from its creation
    on. *)
Theorem created_task_is_due (clockId clockDue : Z) (clock : nat -> Z)
    (task : Task.t) (st : state) (v : PetsView.view) :
  Spec.reads_ISO ->
  Z.abs clockDue <= 8640000000000000 ->
  PetsView.newTask clockId clockDue v = Some task ->
  (forall i, clockDue <= clock i) ->
  task ∈ DashboardView.filteredTasks clock
           (snd (DashboardView.loadData no_faults no_faults
                   (PetsView.handleAddTask clockId clockDue no_faults
                      no_faults no_faults st v).1.2
                   DashboardView.initial)).
Proof.
  intros Hreads Hdue Hnew Hclock.
  destruct (handleAddTask_saves clockId clockDue st v task Hnew)
    as (v' & -> & Hl).
  cbn [fst snd]. unfold DashboardView.loadData.
  rewrite getTasks_no_faults, getPets_no_faults.
  cbn [all2 snd]. unfold DashboardView.filteredTasks.
  cbn [DashboardView.current DashboardView.tasks DashboardView.initial].
  assert (Hin : task ∈ sort DashboardView.byNextDueDate
                  (getAll (tasks (db (snd (saveTask no_faults task st)))))).
  { rewrite sort_Permutation. apply elem_of_getAll. eexists. exact Hl. }
  apply list_elem_of_lookup_1 in Hin as [j Hj].
  apply elem_of_filter_from. exists j. split; [done |].
  by apply (newTask_due_at_once Hreads clockId clockDue v).
Qed.

End Created.

(** ** More properties at work *)

Section MoreAtWork.
Import JS JSDate StorageService.

Lemma preferences_round_trip_witness :
  getTheme (saveTheme "dark" Examples.home) = "dark"
  /\ getNotificationSettings (saveNotificationSettings false Examples.home)
     = false
  /\ getNotificationSettings (saveTheme "dark" Examples.home)
     = getNotificationSettings Examples.home
  /\ getTheme (saveNotificationSettings false Examples.home)
     = getTheme Examples.home
  /\ db (saveTheme "dark" Examples.home) = db Examples.home
  /\ db (saveNotificationSettings false Examples.home) = db Examples.home.
Proof. apply (preferences_round_trip "dark" false Examples.home). done. Defined.

Lemma keyed_kept_witness :
  Spec.keyed Examples.home
  /\ Spec.keyed
       (snd (completeTask (host := Examples.utc) no_faults 1706659200123 "t1"
               Examples.home))
  /\ Spec.keyed
       (snd (deletePet (Env None (IDB.CommitFault "AbortError")) "p1"
               Examples.home)).
Proof.
  split; [exact home_keyed |].
  destruct (keyed_kept (host := Examples.utc) Examples.home home_keyed
              no_faults) as (_ & _ & _ & _ & Hcomplete & _).
  destruct (keyed_kept (host := Examples.utc) Examples.home home_keyed
              (Env None (IDB.CommitFault "AbortError")))
    as (_ & _ & Hdelete & _).
  split; [apply Hcomplete | apply Hdelete].
Defined.

Lemma deleteTask_removes_one_witness :
  exists st',
    deleteTask no_faults "t2" Examples.home = (Resolved tt, st')
    /\ pets (db st') = pets (db Examples.home)
    /\ localStorage st' = localStorage Examples.home
    /\ forall task,
         task ∈ IDB.getAll (tasks (db st'))
         <-> task ∈ IDB.getAll (tasks (db Examples.home))
             /\ Task.id task <> "t2".
Proof. apply (deleteTask_removes_one "t2" Examples.home). exact home_keyed. Defined.


Lemma completeTask_last_wins_witness :
  completeTask (host := Examples.utc) no_faults 1706659200123 "t1"
    (snd (completeTask (host := Examples.utc) no_faults 1704196800000 "t1"
            Examples.home))
  = completeTask (host := Examples.utc) no_faults 1706659200123 "t1"
      Examples.home.
Proof.
  apply (completeTask_last_wins (host := Examples.utc) 1704196800000
           1706659200123 "t1" Examples.home).
  by vm_compute.
Defined.

Lemma setDate_fixed_offset_witness :
  setDate (host := Examples.utc) (ofDate (Num 1706659200123))
    (add (getDate (host := Examples.utc) (Num 1706659200123)) (Num 30))
  = TimeClip (Num (1706659200123 + 30 * msPerDay)).
Proof.
  apply (setDate_fixed_offset (host := Examples.utc) 0 1706659200123 30).
  reflexivity.
Defined.

Lemma handleAddTask_done_witness :
  let v := PetsView.View [] [] false (Some "p1") "Pill" PILL (Num 30) in
  exists due st' v',
    toISOString (Num 1706659200123) = Some due
    /\ PetsView.handleAddTask 1706659200123 1706659200123 no_faults no_faults
         no_faults Examples.home v = (Resolved tt, st', v')
    /\ tasks (db st') !! toString 1706659200123
       = Some (Task.mk (toString 1706659200123) "p1" PILL "Pill" (Num 30)
                 None due)
    /\ PetsView.showAddTask v' = None
    /\ PetsView.newTaskTitle v' = ""
    /\ PetsView.newTaskFreq v' = Num 1.
Proof.
  intros v.
  destruct (handleAddTask_done 1706659200123 1706659200123 "p1" Examples.home
              v) as (due & st' & v' & Hdue & Hrun & Hl & _ & _ & _ & Hshow
                     & Htitle & Hfreq & _); [done | done | done |].
  by exists due, st', v'.
Defined.


Lemma task_identifiers_witness :
  let v1 := PetsView.View [] [] false (Some "p1") "Pill" PILL (Num 30) in
  let v2 := PetsView.View [] [] false (Some "p2") "Ears" EARS (Num 7) in
  exists t1 t2,
    PetsView.newTask 1706659200123 1706659200123 v1 = Some t1
    /\ PetsView.newTask 1706659200123 1706659200124 v2 = Some t2
    /\ t1 <> t2
    /\ tasks
         (db (PetsView.handleAddTask 1706659200123 1706659200124 no_faults
                no_faults no_faults
                (PetsView.handleAddTask 1706659200123 1706659200123 no_faults
                   no_faults no_faults Examples.home v1).1.2 v2).1.2)
         !! Task.id t1 = Some t2.
Proof.
  intros v1 v2. do 2 eexists.
  split; [reflexivity |]. split; [reflexivity |]. split; [discriminate |].
  destruct (task_identifiers 1706659200123 1706659200123 1706659200123
              1706659200124 _ _ v1 v2 Examples.home eq_refl eq_refl)
    as [_ Hsame].
  apply Hsame. reflexivity.
Defined.

Lemma getPetName_loaded_witness :
  let v' := snd (DashboardView.loadData (host := Examples.utc) no_faults
                   no_faults Examples.home DashboardView.initial) in
  DashboardView.getPetName v' "p1" = "Rex"
  /\ DashboardView.getPetName v' "p7" = "Питомец".
Proof.
  intros v'.
  pose proof (getPetName_loaded (host := Examples.utc) no_faults no_faults
                Examples.home DashboardView.initial v') as Hname.
  split.
  - rewrite (Hname "p1" home_keyed eq_refl eq_refl). reflexivity.
  - rewrite (Hname "p7" home_keyed eq_refl eq_refl). reflexivity.
Defined.

Lemma filteredTasks_ordered_witness :
  let clock := fun i : nat => 1704196800000 + Z.of_nat i in
  let v' := snd (DashboardView.loadData (host := Examples.utc) no_faults
                   no_faults Examples.home DashboardView.initial) in
  DashboardView.filteredTasks (host := Examples.utc) clock
    (DashboardView.setFilter DashboardView.today v')
  `sublist_of` DashboardView.tasks v'
  /\ Spec.ascending (host := Examples.utc)
       (DashboardView.filteredTasks (host := Examples.utc) clock
          (DashboardView.setFilter DashboardView.today v')).
Proof.
  intros clock v'.
  apply (filteredTasks_ordered (host := Examples.utc) clock no_faults
           no_faults Examples.home DashboardView.initial v'
           DashboardView.today
           [Examples.pill; Examples.ears; Examples.nails]).
  - by vm_compute.
  - repeat constructor; by vm_compute.
  - reflexivity.
Defined.

Lemma invalid_date_never_due_witness :
  let task := Task.mk "t9" "p1" PILL "Pill" (Num 1) None "soon" in
  DashboardView.shown (host := Examples.utc) DashboardView.today
    1704196800000 task = false
  /\ DashboardView.shown (host := Examples.utc) DashboardView.all
       1704196800000 task = true.
Proof.
  intros task.
  apply (invalid_date_never_due (host := Examples.utc) 1704196800000 task).
  by vm_compute.
Defined.

Lemma handleComplete_today_witness :
  exists st' v',
    DashboardView.handleComplete (host := Examples.utc) no_faults no_faults
      no_faults 1704196800000 "t1" Examples.home DashboardView.initial
    = (Resolved tt, st', v')
    /\ DashboardView.loading v' = false
    /\ ((exists task',
           task' ∈ DashboardView.filteredTasks (host := Examples.utc)
                     (fun _ => 1704200400000)
                     (DashboardView.setFilter DashboardView.today v')
           /\ Task.id task' = "t1")
        <-> Spec.calendarDate (host := Examples.utc) 1706788800000 <= 19724).
Proof.
  apply (handleComplete_today (host := Examples.utc) 1704196800000 30
           1706788800000 19724 (fun _ => 1704200400000) "t1" Examples.pill
           Examples.home DashboardView.initial).
  - exact utc_reads_ISO.
  - exact utc_calendar_monotone.
  - by vm_compute.
  - exact home_keyed.
  - reflexivity.
  - reflexivity.
  - by vm_compute.
  - intros _. by vm_compute.
Defined.

Lemma formatDate_labels_witness :
  DashboardView.formatDate (host := Examples.utc) (fun _ => "3 янв.")
    1704196800000 "2024-01-03T08:00:00.000Z" = "Завтра"
  /\ DashboardView.formatDate (host := Examples.utc) (fun _ => "1 янв.")
       1704196800000 "2024-01-01T08:00:00.000Z" = "1 янв.".
Proof.
  split.
  - rewrite (formatDate_labels (host := Examples.utc) (fun _ => "3 янв.")
               1704196800000 1704283200000 "2024-01-03T08:00:00.000Z"
               eq_refl eq_refl).
    reflexivity.
  - rewrite (formatDate_labels (host := Examples.utc) (fun _ => "1 янв.")
               1704196800000 1704283200000 "2024-01-01T08:00:00.000Z"
               eq_refl eq_refl).
    reflexivity.
Defined.

Lemma handleAddPet_done_witness :
  let f := PetsView.PetForm true "Rex" "" None in
  let v := PetsView.View [] [] true None "" PILL (Num 1) in
  exists st' v',
    PetsView.handleAddPet 1706659200123 1706659200124 no_faults no_faults
      no_faults Examples.orphan v f
    = (Resolved tt, st', v', PetsView.PetForm false "" "" None)
    /\ pets (db st') !! "1706659200123"
       = Some (Pet.mk "1706659200123" "Rex" "" None
                 "https://picsum.photos/200/200?random=1706659200124").
Proof.
  intros f v.
  destruct (handleAddPet_done 1706659200123 1706659200124 Examples.orphan v f)
    as (st' & v' & Hrun & Hl & _); [done |].
  exists st', v'. split; [exact Hrun | exact Hl].
Defined.

Lemma handleDelete_view_witness :
  let v := PetsView.View [] [] true None "" PILL (Num 1) in
  Spec.keyed Examples.home
  /\ exists st' v',
       PetsView.handleDeletePet true no_faults no_faults no_faults "p1"
         Examples.home v = (Resolved tt, st', v')
       /\ PetsView.petTasks v' Examples.rex = [].
Proof.
  intros v. split; [exact home_keyed |].
  destruct (handleDelete_view "p1" Examples.home v home_keyed)
    as (_ & (st' & v' & Hrun & _ & _ & Hcards) & _).
  exists st', v'. split; [exact Hrun |]. by apply Hcards.
Defined.

Lemma toggleNotifications_in_step_witness :
  let '(shown, st') :=
    SettingsView.toggleNotifications true (Some SettingsView.granted) true
      Examples.home in
  shown = SettingsView.mount st'
  /\ (shown = true <->
      true = false /\ true = true
      /\ Some SettingsView.granted = Some SettingsView.granted)
  /\ getTheme st' = getTheme Examples.home
  /\ db st' = db Examples.home.
Proof.
  apply (toggleNotifications_in_step true (Some SettingsView.granted) true
           Examples.home).
  by vm_compute.
Defined.

Lemma askAssistant_reply_witness :
  "Walk daily." <> ""
  /\ ("Walk daily." ∈ Spec.fallbacks
      \/ ("key" <> ""
          /\ (fun _ : string => Resolved (Some "Walk daily.") : outcome unit _)
               "How often?" = Resolved (Some "Walk daily."))).
Proof.
  apply (askAssistant_reply (E := unit) "key"
           (fun _ => Resolved (Some "Walk daily.")) "How often?"
           "Walk daily.").
  reflexivity.
Defined.

Lemma onFetch_stores_witness :
  let network := fun _ : ServiceWorker.Request =>
    Some (ServiceWorker.mkResponse 200 "basic" "<html>") in
  let request := ServiceWorker.mkRequest "/index.html" "GET" in
  (exists before : gmap string ServiceWorker.Response,
     (ServiceWorker.CACHE_NAME, before)
       ∈ ([] : list (string * gmap string ServiceWorker.Response))
     /\ before !! "/index.html"
        = Some (ServiceWorker.mkResponse 200 "basic" "<html>"))
  \/ (ServiceWorker.CACHE_NAME = ServiceWorker.CACHE_NAME
      /\ "/index.html" = ServiceWorker.url request
      /\ ServiceWorker.method request = "GET"
      /\ ServiceWorker.match_ request [] = None
      /\ network request
         = Some (ServiceWorker.mkResponse 200 "basic" "<html>")
      /\ ServiceWorker.status (ServiceWorker.mkResponse 200 "basic" "<html>")
         = 200
      /\ (ServiceWorker.type (ServiceWorker.mkResponse 200 "basic" "<html>")
          = "basic"
          \/ ServiceWorker.type
               (ServiceWorker.mkResponse 200 "basic" "<html>") = "cors")).
Proof.
  intros network request.
  apply (onFetch_stores network (fun _ _ => true) request []
           ServiceWorker.CACHE_NAME
           (<["/index.html" :=
                ServiceWorker.mkResponse 200 "basic" "<html>"]> ∅)
           "/index.html" (ServiceWorker.mkResponse 200 "basic" "<html>")).
  - apply list_elem_of_here.
  - apply lookup_insert_eq.
Defined.

Lemma created_task_is_due_witness :
  let v := PetsView.View [] [] false (Some "p1") "Pill" PILL (Num 30) in
  exists task,
    PetsView.newTask 1706659200123 1706659200123 v = Some task
    /\ task ∈ DashboardView.filteredTasks (host := Examples.utc)
                (fun i => 1706659200123 + Z.of_nat i)
                (snd (DashboardView.loadData (host := Examples.utc) no_faults
                        no_faults
                        (PetsView.handleAddTask 1706659200123 1706659200123
                           no_faults no_faults no_faults Examples.home v).1.2
                        DashboardView.initial)).
Proof.
  intros v. eexists. split; [reflexivity |].
  apply (created_task_is_due (host := Examples.utc) 1706659200123
           1706659200123 (fun i => 1706659200123 + Z.of_nat i) _
           Examples.home v).
  - exact utc_reads_ISO.
  - by vm_compute.
  - reflexivity.
  - intros i. lia.
Defined.

End MoreAtWork.
